(** * orientseq: orientation of sequencing reads by poly-A / poly-T tails

    A shallow embedding of [orientseq/__main__.py] and the properties of
    its scanner ([find_poly]), of the classification made by the two
    record loops ([read_and_write_alignment], [read_and_write_fastx]), of
    the statistics they accumulate ([print_stats]), and of the format
    detection and dispatch around them ([detect_format], [main]).

    Python [int] is modelled by [Z], [float] by IEEE 754 binary64 as the
    Standard Library specifies it, [str] by [string] (a one-character
    [str] by [ascii]) and a [dict] by a [gmap]. *)

From Stdlib Require Import ZArith Ascii String List Lia.
From Stdlib Require SpecFloat.
From stdpp Require Import gmap strings list fin_maps.
Import ListNotations.

Local Open Scope string_scope.
Local Open Scope Z_scope.

(** ** Python primitives used by the source *)

(** [enumerate(l, i)]: the elements of [l] paired with their index, counted
    from [i]; the source calls it with the default start 0. *)
Fixpoint enumerate_from {A : Type} (i : Z) (l : list A) : list (Z * A) :=
  match l with
  | [] => []
  | x :: l' => (i, x) :: enumerate_from (i + 1) l'
  end.

(** [len(s)] for a [str]. *)
Definition len (s : string) : Z := Z.of_nat (String.length s).

(** ** [find_poly] (lines 23-42) *)

(** The local variables of [find_poly] that the loop updates. *)
Record scan_state : Type := ScanState {
  max_poly : gmap ascii Z;
  current_poly_length : Z;
  current_mismatches : Z;
  current_poly_base : ascii
}.

(** Lines 24-26: the state before the loop. *)
Definition scan_init : scan_state :=
  {| max_poly := <["T"%char := 0]> (<["A"%char := 0]> ∅);
     current_poly_length := 0;
     current_mismatches := 0;
     current_poly_base := "T"%char |}.

(** Lines 28-30: at index [len(sequence) // 2] the run is dropped and the
    scan switches to 'A'. [n] is [len(sequence)]. *)
Definition enter_half (n i : Z) (st : scan_state) : scan_state :=
  if i =? n / 2 then
    {| max_poly := max_poly st;
       current_poly_length := 0;
       current_mismatches := 0;
       current_poly_base := "A"%char |}
  else st.

(** Lines 31-41: one symbol against the current target. *)
Definition scan_base (max_mismatches : Z) (st : scan_state) (base : ascii)
  : scan_state :=
  let key := current_poly_base st in
  if decide (base = key) then
    let l := current_poly_length st + 1 in
    {| max_poly := <[key := Z.max (max_poly st !!! key) l]> (max_poly st);
       current_poly_length := l;
       current_mismatches := 0;
       current_poly_base := key |}
  else if current_mismatches st <? max_mismatches then
    {| max_poly := max_poly st;
       current_poly_length := current_poly_length st + 1;
       current_mismatches := current_mismatches st + 1;
       current_poly_base := key |}
  else
    {| max_poly :=
         <[key := Z.max (max_poly st !!! key) (current_poly_length st)]>
           (max_poly st);
       current_poly_length := 0;
       current_mismatches := 0;
       current_poly_base := key |}.

(** The body of the [for] loop (lines 28-41) at index [i] and symbol
    [base]. *)
Definition find_poly_step (n max_mismatches : Z) (st : scan_state)
    (ib : Z * ascii) : scan_state :=
  scan_base max_mismatches (enter_half n (fst ib) st) (snd ib).

(** The loop run over a list of symbols of a sequence of length [n],
    starting at index [i] in state [st]. *)
Definition scan_from (n max_mismatches i : Z) (st : scan_state)
    (l : list ascii) : scan_state :=
  fold_left (find_poly_step n max_mismatches) (enumerate_from i l) st.

Definition find_poly (sequence : string) (max_mismatches : Z) : gmap ascii Z :=
  max_poly (scan_from (len sequence) max_mismatches 0 scan_init
              (list_ascii_of_string sequence)).

(** The two entries of the returned dictionary. *)
Definition bestT (m : gmap ascii Z) : Z := m !!! "T"%char.
Definition bestA (m : gmap ascii Z) : Z := m !!! "A"%char.

(** ** The classification made by the record loops

    Both loops branch on the same chain (lines 49/52/57 and 69/72/77):
    [if abs(diff) < threshold: ... elif diff < 0: ... else: ...]. The
    chain is named here and the loops below match on its outcome. *)
Inductive Classification : Type :=
  | Forward
  | ReverseComplement
  | Ambiguous.

Definition classify (diff threshold : Z) : Classification :=
  if Z.abs diff <? threshold then Ambiguous
  else if diff <? 0 then ReverseComplement
  else Forward.

(** ** Reverse complement

    [str(Seq(s).reverse_complement())] comes from Biopython. It is modelled
    as the reversal of the symbol-wise image of [s] under a complement
    table, which stays a parameter of the development. *)
Definition reverse_complement (complement : ascii -> ascii) (s : string)
  : string :=
  string_of_list_ascii (rev (map complement (list_ascii_of_string s))).

(** [bytes.maketrans(keys, values)] applied to one symbol: the symbol of
    [values] at the place where [c] stands in [keys], or [c] itself. *)
Fixpoint translate (keys values : list ascii) (c : ascii) : ascii :=
  match keys, values with
  | k :: keys', v :: values' =>
      if decide (c = k) then v else translate keys' values' c
  | _, _ => c
  end.

(** [str.lower] on one ASCII symbol. *)
Definition lower (c : ascii) : ascii :=
  let n := nat_of_ascii c in
  if (65 <=? n)%nat && (n <=? 90)%nat then ascii_of_nat (n + 32) else c.

(** The table with which [Bio.Seq] complements DNA, built as it builds it:
    the IUPAC codes with their complements, 'U' with the complement of
    'T', and the same in lower case; every other symbol is kept. The
    general statements below hold for any table; this one is used where a
    run is evaluated. *)
Definition dna_complement (c : ascii) : ascii :=
  let keys := list_ascii_of_string "ACGTMRWSYKVHDBXNU" in
  let values := list_ascii_of_string "TGCAKYWSRMBDHVXNA" in
  translate (keys ++ map lower keys) (values ++ map lower values) c.

(** ** The statistics dictionary *)

(** Lines 45 and 65. *)
Definition stats_init : gmap string Z :=
  <["fwd_cnt" := 0]> (<["fwd_len" := 0]> (<["revcomp_cnt" := 0]>
  (<["revcomp_len" := 0]> (<["ambigous_cnt" := 0]> (<["ambigous_len" := 0]>
  (<["polyA_len" := 0]> (<["polyT_len" := 0]> ∅))))))).

(** [stats[key] += v]. *)
Definition stats_add (key : string) (v : Z) (stats : gmap string Z)
  : gmap string Z :=
  <[key := stats !!! key + v]> stats.

(** ** Records *)

(** A [pysam.AlignedSegment] that carries a sequence. The source reads and
    assigns its [query_sequence] only; [query_qualities] is named here
    because assigning [query_sequence] discards it, and [segment_fields]
    stands for every other attribute. A record stored without bases, whose
    [query_sequence] is [None], is a [WithoutSequence] of [SegmentRead]
    below. *)
Record AlignedSegment (F : Type) : Type := MkSegment {
  query_sequence : string;
  query_qualities : option (list Z);
  segment_fields : F
}.
Arguments MkSegment {F} _ _ _.
Arguments query_sequence {F} _.
Arguments query_qualities {F} _.
Arguments segment_fields {F} _.

(** [read.query_sequence = s]: the setter of pysam stores the sequence
    and invalidates the quality scores. *)
Definition set_query_sequence {F : Type} (read : AlignedSegment F)
    (s : string) : AlignedSegment F :=
  MkSegment s None (segment_fields read).

(** A record of [pysam.FastxFile]; [quality] is [None] for FASTA input. *)
Record FastxRecord : Type := MkFastx {
  name : string;
  sequence : string;
  quality : option string
}.

(** [read.sequence = s]. *)
Definition set_sequence (read : FastxRecord) (s : string) : FastxRecord :=
  MkFastx (name read) s (quality read).

Definition newline : string := String "010"%char EmptyString.

(** How an f-string renders [read.quality]. *)
Definition format_quality (q : option string) : string :=
  match q with
  | Some s => s
  | None => "None"
  end.

(** Line 81: the text written for one record. *)
Definition fastq_text (read : FastxRecord) : string :=
  "@" ++ name read ++ newline ++ sequence read ++ newline ++ "+" ++ newline
      ++ format_quality (quality read) ++ newline.

(** ** [read_and_write_alignment] (lines 44-62) *)

(** Lines 47-61: the loop body. [out] is the list of records written so
    far, oldest first. *)
Definition alignment_body {F : Type} (complement : ascii -> ascii)
    (threshold : Z) (acc : gmap string Z * list (AlignedSegment F))
    (read : AlignedSegment F) : gmap string Z * list (AlignedSegment F) :=
  let '(stats, out) := acc in
  let polys := find_poly (query_sequence read) 0 in
  let diff := polys !!! "A"%char - polys !!! "T"%char in
  let '(stats, read) :=
    match classify diff threshold with
    | Ambiguous =>
        let stats := stats_add "ambigous_cnt" 1 stats in
        let stats := stats_add "ambigous_len" (len (query_sequence read)) stats in
        (stats, read)
    | ReverseComplement =>
        let read :=
          set_query_sequence read
            (reverse_complement complement (query_sequence read)) in
        let stats := stats_add "revcomp_cnt" 1 stats in
        let stats := stats_add "revcomp_len" (len (query_sequence read)) stats in
        let stats := stats_add "polyT_len" (polys !!! "T"%char) stats in
        (stats, read)
    | Forward =>
        let stats := stats_add "fwd_cnt" 1 stats in
        let stats := stats_add "fwd_len" (len (query_sequence read)) stats in
        let stats := stats_add "polyA_len" (polys !!! "A"%char) stats in
        (stats, read)
    end in
  (stats, (out ++ [read])%list).

(** The function returns [stats]; the records written to [out] are its
    effect and are returned beside it. *)
Definition read_and_write_alignment {F : Type} (complement : ascii -> ascii)
    (f : list (AlignedSegment F)) (threshold : Z)
  : gmap string Z * list (AlignedSegment F) :=
  fold_left (alignment_body complement threshold) f (stats_init, []).

(** ** [read_and_write_fastx] (lines 64-82) *)

(** Lines 67-81: the loop body. [out] is the list of the texts written so
    far, oldest first. *)
Definition fastx_body (complement : ascii -> ascii) (threshold : Z)
    (acc : gmap string Z * list string) (read : FastxRecord)
  : gmap string Z * list string :=
  let '(stats, out) := acc in
  let polys := find_poly (sequence read) 0 in
  let diff := polys !!! "A"%char - polys !!! "T"%char in
  let '(stats, read) :=
    match classify diff threshold with
    | Ambiguous =>
        let stats := stats_add "ambigous_cnt" 1 stats in
        let stats := stats_add "ambigous_len" (len (sequence read)) stats in
        (stats, read)
    | ReverseComplement =>
        let read :=
          set_sequence read (reverse_complement complement (sequence read)) in
        let stats := stats_add "revcomp_cnt" 1 stats in
        let stats := stats_add "revcomp_len" (len (sequence read)) stats in
        let stats := stats_add "polyT_len" (polys !!! "T"%char) stats in
        (stats, read)
    | Forward =>
        let stats := stats_add "fwd_cnt" 1 stats in
        let stats := stats_add "fwd_len" (len (sequence read)) stats in
        let stats := stats_add "polyA_len" (polys !!! "A"%char) stats in
        (stats, read)
    end in
  (stats, (out ++ [fastq_text read])%list).

Definition read_and_write_fastx (complement : ascii -> ascii)
    (f : list FastxRecord) (threshold : Z) : gmap string Z * list string :=
  fold_left (fastx_body complement threshold) f (stats_init, []).

(** ** Exceptions and floating point *)

Inductive Exception : Type :=
  | ValueError (message : string)
  | NameError (name : string)
  | TypeError
  | OverflowError
  | ZeroDivisionError.

(** A computation that returns or raises, and its sequencing. *)
Definition raise_or (A : Type) : Type := Exception + A.

Definition and_then {A B : Type} (x : raise_or A) (k : A → raise_or B)
  : raise_or B :=
  match x with
  | inl e => inl e
  | inr a => k a
  end.

Notation "'let!' x ':=' e 'in' k" := (and_then e (fun x => k))
  (at level 10, x name, e at level 100, k at level 200).

(** Python's [float]: IEEE 754 binary64, 53 bits of precision. *)
Definition float : Type := SpecFloat.spec_float.

Definition float_add (x y : float) : float := SpecFloat.SFadd 53 1024 x y.
Definition float_div (x y : float) : float := SpecFloat.SFdiv 53 1024 x y.

(** The literal [0.001]: the double nearest to 1/1000. *)
Definition smoothing : float :=
  SpecFloat.S754_finite false 4611686018427388 (-62).

(** The conversion of an [int] operand in a mixed operation: the nearest
    double, or OverflowError when that is not finite. *)
Definition float_of_int (z : Z) : raise_or float :=
  match SpecFloat.binary_normalize 53 1024 z 0 false with
  | SpecFloat.S754_infinity _ => inl OverflowError
  | x => inr x
  end.

Definition float_is_zero (x : float) : bool :=
  match x with
  | SpecFloat.S754_zero _ => true
  | _ => false
  end.

(** [x / y] on floats raises on a zero divisor. *)
Definition float_truediv (x y : float) : raise_or float :=
  if float_is_zero y then inl ZeroDivisionError else inr (float_div x y).

(** ** [print_stats] (lines 84-101) *)

(** [total / (count + 0.001)] for two [int]: [count] is converted and
    added to the literal, then [total] is converted and divided. *)
Definition average (total count : Z) : raise_or float :=
  let! c := float_of_int count in
  let divisor := float_add c smoothing in
  let! t := float_of_int total in
  float_truediv t divisor.

(** The figures of the printed text, in the order of the text. *)
Record Report : Type := MkReport {
  report_input : string;
  normal_count : Z;
  normal_average_length : float;
  average_polyA_length : float;
  revcomp_count : Z;
  revcomp_average_length : float;
  average_polyT_length : float;
  ambigous_count : Z;
  ambigous_average_length : float
}.

(** The f-string is evaluated field by field before anything is printed:
    the function prints the report or raises. *)
Definition print_stats (stats : gmap string Z) (input_file_name : string)
  : raise_or Report :=
  let! fwd_len := average (stats !!! "fwd_len") (stats !!! "fwd_cnt") in
  let! polyA := average (stats !!! "polyA_len") (stats !!! "fwd_cnt") in
  let! revcomp_len :=
    average (stats !!! "revcomp_len") (stats !!! "revcomp_cnt") in
  let! polyT := average (stats !!! "polyT_len") (stats !!! "revcomp_cnt") in
  let! ambigous_len :=
    average (stats !!! "ambigous_len") (stats !!! "ambigous_cnt") in
  inr {| report_input := input_file_name;
         normal_count := stats !!! "fwd_cnt";
         normal_average_length := fwd_len;
         average_polyA_length := polyA;
         revcomp_count := stats !!! "revcomp_cnt";
         revcomp_average_length := revcomp_len;
         average_polyT_length := polyT;
         ambigous_count := stats !!! "ambigous_cnt";
         ambigous_average_length := ambigous_len |}.

(** ** [detect_format] (lines 14-21) *)

(** [s.split(sep)] for a one-character separator: the fields between the
    occurrences of [sep], at least one. *)
Fixpoint split (sep : ascii) (s : string) : list string :=
  match s with
  | EmptyString => [EmptyString]
  | String c s' =>
      if decide (c = sep) then EmptyString :: split sep s'
      else match split sep s' with
           | field :: fields => String c field :: fields
           | [] => [String c EmptyString]
           end
  end.

(** [fields[-1]]; [split] never returns the empty list, so the default is
    never taken ([split_not_nil]). *)
Definition last_field (fields : list string) : string :=
  List.last fields EmptyString.

(** [x in [...]] for a list of strings. *)
Definition str_in (x : string) (l : list string) : bool :=
  bool_decide (x ∈ l).

Definition detect_format (file_name : string) : Z * string :=
  let fmt := last_field (split "."%char file_name) in
  if str_in fmt ["fq"; "fastq"; "fa"; "fasta"] then (0, "fx")
  else if str_in fmt ["sam"; "bam"] then (0, fmt)
  else (1, fmt).

(** ** [main] (lines 103-121) *)

(** The namespace returned by [parse_arguments]; an option that was not
    given is [None]. *)
Record Args : Type := MkArgs {
  input : string;
  output : string;
  format : option string;
  threshold : Z;
  ambigous : option string
}.

(** What [pysam] yields from the input path, by the way it is opened;
    the alignment records are taken to carry their sequence (a stream
    with records that do not is a list of [SegmentRead]). *)
Record InputFile (F : Type) : Type := MkInput {
  as_fastx : list FastxRecord;
  as_sam : list (AlignedSegment F);
  as_bam : list (AlignedSegment F)
}.
Arguments MkInput {F} _ _ _.
Arguments as_fastx {F} _.
Arguments as_sam {F} _.
Arguments as_bam {F} _.

(** The state of the output path when [main] returns. *)
Inductive Written (F : Type) : Type :=
  | Touched
  | FastxText (texts : list string)
  | SamFile (records : list (AlignedSegment F))
  | BamFile (records : list (AlignedSegment F)).
Arguments Touched {F}.
Arguments FastxText {F} _.
Arguments SamFile {F} _.
Arguments BamFile {F} _.

(** [main] raises before it touches the output path, or raises after a
    loop has written to it, or returns, having left the output path in some
    state and printed a report or nothing. *)
Inductive MainResult (F : Type) : Type :=
  | Raised (e : Exception)
  | RaisedAfter (written : Written F) (e : Exception)
  | Finished (written : Written F) (printed : option Report).
Arguments Raised {F} _.
Arguments RaisedAfter {F} _ _.
Arguments Finished {F} _ _.

(** The call of [print_stats] that ends each branch of the dispatch, the
    loop having written [written]. *)
Definition report_or_raise {F : Type} (written : Written F)
    (printed : raise_or Report) : MainResult F :=
  match printed with
  | inl e => RaisedAfter written e
  | inr report => Finished written (Some report)
  end.

(** [args.format if args.format else fmt]: [None] and the empty string
    are false. *)
Definition format_or (given : option string) (fmt : string) : string :=
  match given with
  | Some EmptyString => fmt
  | Some s => s
  | None => fmt
  end.

(** The body of [main] after [parse_arguments]. [Path_bound] tells whether
    the global name [Path] of line 109 is bound when the call is made; the
    file imports [argparse], [pysam] and [Seq] only, so it is not, and the
    lookup raises [NameError]. *)
Definition main_in {F : Type} (Path_bound : bool)
    (complement : ascii → ascii) (file : InputFile F) (args : Args)
  : MainResult F :=
  let '(fmt_status, fmt) := detect_format (input args) in
  let fmt := format_or (format args) fmt in
  if fmt_status =? 1 then
    Raised (ValueError ("Can't parse ." ++ fmt ++ " files!"))
  else if negb Path_bound then Raised (NameError "Path")
  else if decide (fmt = "fx") then
    let '(stats, out) :=
      read_and_write_fastx complement (as_fastx file) (threshold args) in
    report_or_raise (FastxText out) (print_stats stats (input args))
  else if decide (fmt = "sam") then
    let '(stats, out) :=
      read_and_write_alignment complement (as_sam file) (threshold args) in
    report_or_raise (SamFile out) (print_stats stats (input args))
  else if decide (fmt = "bam") then
    let '(stats, out) :=
      read_and_write_alignment complement (as_bam file) (threshold args) in
    report_or_raise (BamFile out) (print_stats stats (input args))
  else Finished Touched None.

(** [main] as the file stands. *)
Definition main {F : Type} (complement : ascii → ascii)
    (file : InputFile F) (args : Args) : MainResult F :=
  main_in false complement file args.

(** ** Vocabulary of the statements *)

(** The forced close of a run as the specification words it: the run
    length goes to the bucket of the symbol that is being observed, and to
    no bucket when that symbol is neither 'A' nor 'T'. Kept beside
    [scan_base] to compare the two. *)
Definition close_into_observed_bucket (st : scan_state) (base : ascii)
  : scan_state :=
  let recorded key :=
    <[key := Z.max (max_poly st !!! key) (current_poly_length st)]>
      (max_poly st) in
  {| max_poly :=
       if decide (base = "A"%char) then recorded "A"%char
       else if decide (base = "T"%char) then recorded "T"%char
       else max_poly st;
     current_poly_length := 0;
     current_mismatches := 0;
     current_poly_base := current_poly_base st |}.

(** The classification of a sequence, as lines 47-52 compute it. *)
Definition classify_sequence (s : string) (threshold : Z) : Classification :=
  let polys := find_poly s 0 in
  classify (polys !!! "A"%char - polys !!! "T"%char) threshold.

Global Instance Classification_eq_dec : EqDecision Classification.
Proof. solve_decision. Defined.

(** The target symbol is always one of the two keys, and both keys stay
    in the dictionary: no lookup of the source can miss. *)
Definition keys_ok (st : scan_state) : Prop :=
  (current_poly_base st = "T"%char ∨ current_poly_base st = "A"%char)
  ∧ is_Some (max_poly st !! "T"%char)
  ∧ is_Some (max_poly st !! "A"%char).

(** What the loop over a sequence of length [n] maintains before it looks
    at index [i]. Up to the middle the target is 'T', the run and the 'T'
    entry are bounded by the number of symbols seen, and the 'A' entry is
    untouched. Past the middle the target is 'A', the run and the 'A' entry
    are bounded by the number of symbols seen since the middle, and the 'T'
    entry by the length of the first half. *)
Definition half_inv (n i : Z) (st : scan_state) : Prop :=
  (0 ≤ i ≤ n / 2
   ∧ current_poly_base st = "T"%char
   ∧ current_poly_length st ≤ i
   ∧ bestT (max_poly st) ≤ i
   ∧ bestA (max_poly st) ≤ 0)
  ∨ (n / 2 < i
     ∧ current_poly_base st = "A"%char
     ∧ current_poly_length st ≤ i - n / 2
     ∧ bestA (max_poly st) ≤ i - n / 2
     ∧ bestT (max_poly st) ≤ n / 2).

(** The state of the scan of a 12-symbol sequence after its first five
    symbols "TTTTT", tolerance 0: a run of length 5, 'T' = 5, 'A' = 0. *)
Definition after_TTTTT : scan_state :=
  scan_from 12 0 0 scan_init (list_ascii_of_string "TTTTT").

(** The state of the scan of "TCGAAA" after "TC", tolerance 1: a run of
    length 2 with its one tolerated mismatch used, 'T' = 1. *)
Definition after_TC : scan_state :=
  scan_from 6 1 0 scan_init (list_ascii_of_string "TC").

(** [x] is the quotient, in binary64, of the converted [sum] by the
    converted [count] plus 0.001. *)
Definition is_quotient (x : float) (sum count : Z) : Prop :=
  ∃ fs fc : float,
    float_of_int sum = inr fs
    ∧ float_of_int count = inr fc
    ∧ x = float_div fs (float_add fc smoothing).

(** Exactly one of three propositions holds. *)
Definition exactly_one (P Q R : Prop) : Prop :=
  (P ∧ ¬ Q ∧ ¬ R) ∨ (¬ P ∧ Q ∧ ¬ R) ∨ (¬ P ∧ ¬ Q ∧ R).

(** The update of [stats] for one record with sequence [s] (lines 50-51,
    54-56 and 58-60). *)
Definition tally (threshold : Z) (s : string) (stats : gmap string Z)
  : gmap string Z :=
  match classify_sequence s threshold with
  | Ambiguous =>
      stats_add "ambigous_len" (len s) (stats_add "ambigous_cnt" 1 stats)
  | ReverseComplement =>
      stats_add "polyT_len" (bestT (find_poly s 0))
        (stats_add "revcomp_len" (len s) (stats_add "revcomp_cnt" 1 stats))
  | Forward =>
      stats_add "polyA_len" (bestA (find_poly s 0))
        (stats_add "fwd_len" (len s) (stats_add "fwd_cnt" 1 stats))
  end.

(** The record handed to [out.write] (lines 53 and 61, 73 and 81). *)
Definition emit_alignment {F : Type} (complement : ascii -> ascii)
    (threshold : Z) (read : AlignedSegment F) : AlignedSegment F :=
  match classify_sequence (query_sequence read) threshold with
  | ReverseComplement =>
      set_query_sequence read
        (reverse_complement complement (query_sequence read))
  | _ => read
  end.

Definition emit_fastx (complement : ascii -> ascii) (threshold : Z)
    (read : FastxRecord) : FastxRecord :=
  match classify_sequence (sequence read) threshold with
  | ReverseComplement =>
      set_sequence read (reverse_complement complement (sequence read))
  | _ => read
  end.

(** The sequences of a class, their number, and a sum over them. *)
Definition of_class (threshold : Z) (c : Classification) (seqs : list string)
  : list string :=
  filter (λ s, classify_sequence s threshold = c) seqs.

Definition count (seqs : list string) : Z := Z.of_nat (length seqs).

Definition total (g : string → Z) (seqs : list string) : Z :=
  foldr (λ s acc, g s + acc) 0 seqs.

(** The quality string reversed, as C2 asks for it. *)
Definition reverse_quality (q : string) : string :=
  string_of_list_ascii (rev (list_ascii_of_string q)).

(** ** Runs of a symbol in a list *)

(** The number of copies of [c] at the head of [l]. *)
Fixpoint run_prefix (c : ascii) (l : list ascii) : nat :=
  match l with
  | [] => 0
  | x :: l' => if decide (x = c) then S (run_prefix c l') else 0
  end.

(** The length of the longest block of consecutive [c] in [l]. *)
Fixpoint longest_run (c : ascii) (l : list ascii) : nat :=
  match l with
  | [] => 0
  | _ :: l' => Nat.max (run_prefix c l) (longest_run c l')
  end.

(** [l] contains [k] consecutive copies of [c]. *)
Definition has_run (c : ascii) (k : nat) (l : list ascii) : Prop :=
  ∃ l1 l2 : list ascii, l = (l1 ++ replicate k c ++ l2)%list.

(** The loop body without the test of line 28, folded over symbols. *)
Definition scan_plain (max_mismatches : Z) (st : scan_state)
    (l : list ascii) : scan_state :=
  fold_left (scan_base max_mismatches) l st.

(** Sign and key invariant of the scanner state. *)
Definition scan_wf (st : scan_state) : Prop :=
  0 ≤ current_poly_length st
  ∧ 0 ≤ current_mismatches st
  ∧ (current_poly_base st = "T"%char ∨ current_poly_base st = "A"%char)
  ∧ dom (max_poly st) = ({["T"%char; "A"%char]} : gset ascii)
  ∧ 0 ≤ bestT (max_poly st)
  ∧ 0 ≤ bestA (max_poly st).

(** The scan at tolerance 0 ([st0]) beside the scan of the same symbols at
    another tolerance ([st]): same target, and nothing of [st0] exceeds its
    counterpart in [st]. *)
Definition scan_below (st0 st : scan_state) : Prop :=
  current_poly_base st0 = current_poly_base st
  ∧ (current_poly_base st0 = "T"%char ∨ current_poly_base st0 = "A"%char)
  ∧ 0 ≤ current_mismatches st0
  ∧ 0 ≤ current_poly_length st0 ≤ current_poly_length st
  ∧ current_poly_length st0 ≤ max_poly st0 !!! current_poly_base st0
  ∧ 0 ≤ bestT (max_poly st0) ≤ bestT (max_poly st)
  ∧ 0 ≤ bestA (max_poly st0) ≤ bestA (max_poly st).

(** A complement table that sends 'T' to 'A' and nothing but 'A' to 'T'. *)
Definition pairs_T_with_A (complement : ascii → ascii) : Prop :=
  complement "T"%char = "A"%char
  ∧ ∀ x, complement x = "T"%char → x = "A"%char.

(** ** Alignment records without a sequence *)

(** What [pysam] yields from an alignment file: a record with its
    sequence, or a record stored without bases, whose [query_sequence] is
    [None]. *)
Inductive SegmentRead (F : Type) : Type :=
  | WithSequence (read : AlignedSegment F)
  | WithoutSequence (fields : F).
Arguments WithSequence {F} _.
Arguments WithoutSequence {F} _.

(** The loop either returns [stats], having written [out], or raises,
    having written [out] so far. *)
Inductive LoopResult (F : Type) : Type :=
  | LoopReturned (stats : gmap string Z) (out : list (AlignedSegment F))
  | LoopRaised (e : Exception) (out : list (AlignedSegment F)).
Arguments LoopReturned {F} _ _.
Arguments LoopRaised {F} _ _.

(** Lines 46-62 over such a stream: on a record without sequence,
    [find_poly(None, 0)] reaches [enumerate(None)] on line 27, which
    raises TypeError before the record is counted or written. *)
Fixpoint alignment_loop_from {F : Type} (complement : ascii → ascii)
    (threshold : Z) (acc : gmap string Z * list (AlignedSegment F))
    (f : list (SegmentRead F)) : LoopResult F :=
  match f with
  | [] => LoopReturned (fst acc) (snd acc)
  | WithSequence read :: f' =>
      alignment_loop_from complement threshold
        (alignment_body complement threshold acc read) f'
  | WithoutSequence _ :: _ => LoopRaised TypeError (snd acc)
  end.

Definition read_and_write_alignment_pysam {F : Type}
    (complement : ascii → ascii) (f : list (SegmentRead F)) (threshold : Z)
  : LoopResult F :=
  alignment_loop_from complement threshold (stats_init, []) f.

(** * Properties of the scanner *)

(** Case analysis on the three branches of [scan_base], then the entries
    of the updated dictionary and linear arithmetic. *)
Ltac scan_cases :=
  repeat case_decide; repeat case_match; simpl;
  rewrite ?lookup_total_insert_eq,
    ?(lookup_total_insert_ne _ "A"%char "T"%char),
    ?(lookup_total_insert_ne _ "T"%char "A"%char) by discriminate;
  repeat split; try done; try lia.

Section Scanner.
Variables n max_mismatches : Z.

Lemma scan_from_cons i st c l :
  scan_from n max_mismatches i st (c :: l) =
  scan_from n max_mismatches (i + 1)
    (find_poly_step n max_mismatches st (i, c)) l.
Proof. reflexivity. Qed.

Lemma scan_from_app i st l1 l2 :
  scan_from n max_mismatches i st (l1 ++ l2) =
  scan_from n max_mismatches (i + Z.of_nat (length l1))
    (scan_from n max_mismatches i st l1) l2.
Proof.
  revert i st. induction l1 as [|c l1 IH]; intros i st.
  - simpl. by rewrite Z.add_0_r.
  - rewrite <- app_comm_cons, !scan_from_cons, IH.
    f_equal. rewrite length_cons. lia.
Qed.

Lemma keys_ok_init : keys_ok scan_init.
Proof. repeat split; [by left | by eexists | by eexists]. Qed.

Lemma keys_ok_step st ib :
  keys_ok st → keys_ok (find_poly_step n max_mismatches st ib).
Proof.
  intros (Hb & HT & HA). unfold find_poly_step, enter_half, scan_base.
  destruct (fst ib =? n / 2); simpl;
    repeat case_decide; repeat case_match; unfold keys_ok; simpl;
    rewrite ?lookup_insert_is_Some'; tauto.
Qed.

Lemma keys_ok_scan l i st :
  keys_ok st → keys_ok (scan_from n max_mismatches i st l).
Proof.
  revert i st. induction l as [|c l IH]; intros i st H; [done|].
  rewrite scan_from_cons. by apply IH, keys_ok_step.
Qed.


Lemma half_inv_init : 0 ≤ n → half_inv n 0 scan_init.
Proof.
  intros Hn. left. unfold bestT, bestA. simpl.
  rewrite lookup_total_insert_eq,
    (lookup_total_insert_ne _ "T"%char "A"%char),
    lookup_total_insert_eq by discriminate.
  repeat split; try lia; try done. apply Z.div_pos; lia.
Qed.

Lemma half_inv_step i st c :
  half_inv n i st →
  half_inv n (i + 1) (find_poly_step n max_mismatches st (i, c)).
Proof.
  unfold half_inv, find_poly_step, enter_half, scan_base, bestT, bestA.
  simpl. intros [(Hi & Hb & Hl & HT & HA) | (Hi & Hb & Hl & HA & HT)].
  - destruct (Z.eqb_spec i (n / 2)) as [-> | Hne]; simpl.
    + right. scan_cases.
    + left. rewrite Hb. scan_cases.
  - destruct (Z.eqb_spec i (n / 2)) as [-> | Hne]; [lia|].
    right. rewrite Hb. scan_cases.
Qed.

Lemma half_inv_scan l i st :
  half_inv n i st →
  half_inv n (i + Z.of_nat (length l)) (scan_from n max_mismatches i st l).
Proof.
  revert i st. induction l as [|c l IH]; intros i st H.
  - simpl. by rewrite Z.add_0_r.
  - rewrite scan_from_cons, length_cons.
    replace (i + Z.of_nat (S (length l)))
      with (i + 1 + Z.of_nat (length l)) by lia.
    by apply IH, half_inv_step.
Qed.
End Scanner.

(** The dictionary returned by [find_poly] has both keys. *)
Lemma find_poly_keys (sequence : string) (max_mismatches : Z) :
  is_Some (find_poly sequence max_mismatches !! "T"%char)
  ∧ is_Some (find_poly sequence max_mismatches !! "A"%char).
Proof.
  unfold find_poly.
  by destruct (keys_ok_scan (len sequence) max_mismatches
                 (list_ascii_of_string sequence) 0 scan_init keys_ok_init)
    as (_ & HT & HA).
Qed.

Lemma length_list_ascii_of_string s :
  length (list_ascii_of_string s) = String.length s.
Proof. induction s as [|c s IH]; simpl; [done | by rewrite IH]. Qed.

Lemma length_string_of_list_ascii l :
  String.length (string_of_list_ascii l) = length l.
Proof. induction l as [|c l IH]; simpl; [done | by rewrite IH]. Qed.

Section HalfFrames.
Variables n max_mismatches : Z.

(** From the middle on, a step leaves the 'T' entry alone. *)
Lemma second_half_step_keeps_T i st c :
  half_inv n i st → n / 2 ≤ i →
  bestT (max_poly (find_poly_step n max_mismatches st (i, c)))
  = bestT (max_poly st).
Proof.
  unfold half_inv, find_poly_step, enter_half, scan_base, bestT, bestA.
  simpl. intros [(Hi & Hb & _) | (Hi & Hb & _)] Hge.
  - assert (i = n / 2) as -> by lia. rewrite Z.eqb_refl. simpl. scan_cases.
  - destruct (Z.eqb_spec i (n / 2)) as [-> | Hne]; [lia|].
    rewrite Hb. scan_cases.
Qed.

(** Before the middle, a step leaves the 'A' entry alone. *)
Lemma first_half_step_keeps_A i st c :
  half_inv n i st → i < n / 2 →
  bestA (max_poly (find_poly_step n max_mismatches st (i, c)))
  = bestA (max_poly st).
Proof.
  unfold half_inv, find_poly_step, enter_half, scan_base, bestT, bestA.
  simpl. intros [(Hi & Hb & _) | (Hi & Hb & _)] Hlt; [|lia].
  destruct (Z.eqb_spec i (n / 2)) as [-> | Hne]; [lia|].
  rewrite Hb. scan_cases.
Qed.

Lemma second_half_scan_keeps_T l i st :
  half_inv n i st → n / 2 ≤ i →
  bestT (max_poly (scan_from n max_mismatches i st l)) = bestT (max_poly st).
Proof.
  revert i st. induction l as [|c l IH]; intros i st Hinv Hge; [done|].
  rewrite scan_from_cons, IH.
  - by apply second_half_step_keeps_T.
  - by apply half_inv_step.
  - lia.
Qed.

Lemma first_half_scan_keeps_A l i st :
  half_inv n i st → i + Z.of_nat (length l) ≤ n / 2 →
  bestA (max_poly (scan_from n max_mismatches i st l)) = bestA (max_poly st).
Proof.
  revert i st. induction l as [|c l IH]; intros i st Hinv Hle; [done|].
  rewrite length_cons in Hle. rewrite scan_from_cons, IH.
  - apply first_half_step_keeps_A; [done | lia].
  - by apply half_inv_step.
  - lia.
Qed.
End HalfFrames.

(** C8. For every mismatch tolerance, the scanner applied to the empty
    sequence returns the dictionary it started with: both the 'T' entry and
    the 'A' entry are 0. *)
Theorem find_poly_empty (max_mismatches : Z) :
  find_poly "" max_mismatches = <["T"%char := 0]> (<["A"%char := 0]> ∅)
  ∧ bestT (find_poly "" max_mismatches) = 0
  ∧ bestA (find_poly "" max_mismatches) = 0.
Proof. repeat split. Qed.

(** C10. For every sequence of length L and every mismatch tolerance
    (non-negative or not), the scanner returns a 'T' entry of at most
    floor(L/2) and an 'A' entry of at most L - floor(L/2). The 'T' entry is
    the one reached on the first floor(L/2) symbols, where the 'A' entry is
    still 0: the first half only feeds 'T' and the second half only 'A'. *)
Theorem find_poly_half_bounds (sequence : string) (max_mismatches : Z) :
  let L := len sequence in
  let m := find_poly sequence max_mismatches in
  let first_half :=
    scan_from L max_mismatches 0 scan_init
      (take (Z.to_nat (L / 2)) (list_ascii_of_string sequence)) in
  bestT m ≤ L / 2
  ∧ bestA m ≤ L - L / 2
  ∧ bestT m = bestT (max_poly first_half)
  ∧ bestA (max_poly first_half) = 0.
Proof.
  intros L m first_half.
  assert (HL : 0 ≤ L) by (unfold L, len; lia).
  assert (Hh : 0 ≤ L / 2 ≤ L).
  { split; [apply Z.div_pos; lia|].
    apply Z.div_le_upper_bound; lia. }
  pose proof (half_inv_init L HL) as H0.
  split; [|split; [|split]].
  - pose proof (half_inv_scan L max_mismatches
                  (list_ascii_of_string sequence) 0 scan_init H0) as H.
    rewrite length_list_ascii_of_string in H. fold (len sequence) in H.
    fold L in H. rewrite Z.add_0_l in H.
    destruct H as [(Hi & _ & _ & HT & _) | (_ & _ & _ & _ & HT)];
      unfold m, find_poly; fold L; lia.
  - pose proof (half_inv_scan L max_mismatches
                  (list_ascii_of_string sequence) 0 scan_init H0) as H.
    rewrite length_list_ascii_of_string in H. fold (len sequence) in H.
    fold L in H. rewrite Z.add_0_l in H.
    destruct H as [(Hi & _ & _ & _ & HA) | (_ & _ & _ & HA & _)];
      unfold m, find_poly; fold L; lia.
  - unfold m, find_poly. fold L.
    rewrite <- (take_drop (Z.to_nat (L / 2)) (list_ascii_of_string sequence))
      at 1.
    rewrite scan_from_app. apply second_half_scan_keeps_T.
    + by apply half_inv_scan.
    + rewrite length_take, length_list_ascii_of_string.
      unfold L, len in *. lia.
  - unfold first_half. rewrite first_half_scan_keeps_A; [done..|].
    rewrite length_take. lia.
Qed.

(** An 'A' met in the first half closes the 'T' run and feeds neither
    entry. *)
Example find_poly_A_in_first_half :
  let m := find_poly "TTTTTACCCCCC" 0 in (bestT m, bestA m) = (5, 0).
Proof. vm_compute. reflexivity. Qed.

(** A read made of 'T' only still reports half of its length. *)
Example find_poly_all_T :
  let m := find_poly "TTTTTTTTTTTTTTTTTTTT" 0 in (bestT m, bestA m) = (10, 0).
Proof. vm_compute. reflexivity. Qed.

(** C7. On "TTTTTCCCCCAAAAA" (length 15, middle index 7) with tolerance 0
    the scanner holds 'T' = 5 and 'A' = 0 after the first half and returns
    'T' = 5 and 'A' = 5, so the difference is 0 and, with threshold 5, the
    sequence is classified Ambiguous. *)
Theorem scenario_TCA_ambiguous :
  let sequence := "TTTTTCCCCCAAAAA" in
  let m := find_poly sequence 0 in
  let first_half :=
    max_poly (scan_from 15 0 0 scan_init (list_ascii_of_string "TTTTTCC")) in
  len sequence = 15
  ∧ len sequence / 2 = 7
  ∧ (bestT first_half, bestA first_half) = (5, 0)
  ∧ (bestT m, bestA m) = (5, 5)
  ∧ bestA m - bestT m = 0
  ∧ classify (bestA m - bestT m) 5 = Ambiguous
  ∧ classify_sequence sequence 5 = Ambiguous.
Proof. vm_compute. repeat split. Qed.



(** C3, as stated, fails. With tolerance 0 and the run "TTTTT" open, the
    observed 'A' closes the run: the specification's wording puts the
    length 5 into the 'A' entry, the code leaves 'A' at 0. With tolerance 1
    and "TC" scanned, the observed 'G' closes a run of length 2: the wording
    changes no entry, the code raises 'T' from 1 to 2. *)
Lemma forced_close_not_by_observed_symbol :
  ("A"%char ≠ current_poly_base (enter_half 12 5 after_TTTTT)
   ∧ ¬ current_mismatches (enter_half 12 5 after_TTTTT) < 0
   ∧ bestA (max_poly (find_poly_step 12 0 after_TTTTT (5, "A"%char))) = 0
   ∧ bestA (max_poly (close_into_observed_bucket
                        (enter_half 12 5 after_TTTTT) "A"%char)) = 5)
  ∧ ("G"%char ≠ current_poly_base (enter_half 6 2 after_TC)
     ∧ ¬ current_mismatches (enter_half 6 2 after_TC) < 1
     ∧ bestT (max_poly after_TC) = 1
     ∧ bestT (max_poly (find_poly_step 6 1 after_TC (2, "G"%char))) = 2
     ∧ max_poly (close_into_observed_bucket (enter_half 6 2 after_TC)
                   "G"%char) = max_poly after_TC)
  ∧ ¬ (∀ (n max_mismatches i : Z) (st : scan_state) (base : ascii),
         base ≠ current_poly_base (enter_half n i st) →
         ¬ current_mismatches (enter_half n i st) < max_mismatches →
         find_poly_step n max_mismatches st (i, base)
         = close_into_observed_bucket (enter_half n i st) base).
Proof.
  split; [|split].
  - vm_compute. repeat split; intros H; discriminate H.
  - vm_compute. repeat split; intros H; discriminate H.
  - intros H.
    specialize (H 12 0 5 after_TTTTT "A"%char).
    assert (Hcode :
      bestA (max_poly (find_poly_step 12 0 after_TTTTT (5, "A"%char))) = 0)
      by (vm_compute; reflexivity).
    rewrite H in Hcode.
    + vm_compute in Hcode. discriminate Hcode.
    + vm_compute. intros E. discriminate E.
    + vm_compute. intros E. discriminate E.
Qed.

(** C3, amended. When the observed symbol differs from the target symbol
    and the mismatch budget is exhausted, the run is closed into the entry
    of the target symbol (which takes the maximum of its value and the run
    length), whatever the observed symbol is; every other entry is kept,
    and the run length and the mismatch count are reset to 0. *)
Theorem forced_close_target_bucket
    (n max_mismatches i : Z) (st : scan_state) (base : ascii) :
  base ≠ current_poly_base (enter_half n i st) →
  ¬ current_mismatches (enter_half n i st) < max_mismatches →
  let st0 := enter_half n i st in
  let key := current_poly_base st0 in
  let st' := find_poly_step n max_mismatches st (i, base) in
  max_poly st' !!! key
  = Z.max (max_poly st0 !!! key) (current_poly_length st0)
  ∧ (∀ k : ascii, k ≠ key → max_poly st' !! k = max_poly st !! k)
  ∧ max_poly st'
    = <[key := Z.max (max_poly st0 !!! key) (current_poly_length st0)]>
        (max_poly st0)
  ∧ current_poly_length st' = 0
  ∧ current_mismatches st' = 0
  ∧ current_poly_base st' = key.
Proof.
  intros Hne Hbudget st0 key st'.
  assert (Hst' : st' =
    {| max_poly :=
         <[key := Z.max (max_poly st0 !!! key) (current_poly_length st0)]>
           (max_poly st0);
       current_poly_length := 0;
       current_mismatches := 0;
       current_poly_base := key |}).
  { unfold st', find_poly_step, scan_base. simpl. fold st0. fold key.
    destruct (decide (base = key)) as [E | _]; [by destruct Hne|].
    destruct (Z.ltb_spec (current_mismatches st0) max_mismatches) as [Hlt | _];
      [by destruct Hbudget | done]. }
  rewrite Hst'. simpl. repeat split.
  - apply lookup_total_insert_eq.
  - intros k Hk. rewrite lookup_insert_ne by done.
    unfold st0, enter_half. by destruct (i =? n / 2).
Qed.

Lemma forced_close_target_bucket_witness :
  "A"%char ≠ current_poly_base (enter_half 12 5 after_TTTTT)
  ∧ ¬ current_mismatches (enter_half 12 5 after_TTTTT) < 0
  ∧ max_poly (find_poly_step 12 0 after_TTTTT (5, "A"%char)) !!! "T"%char
    = Z.max (max_poly (enter_half 12 5 after_TTTTT) !!! "T"%char) 5.
Proof.
  assert (H1 : "A"%char ≠ current_poly_base (enter_half 12 5 after_TTTTT))
    by (vm_compute; intros E; discriminate E).
  assert (H2 : ¬ current_mismatches (enter_half 12 5 after_TTTTT) < 0)
    by (vm_compute; intros E; discriminate E).
  split; [exact H1 | split; [exact H2 |]].
  exact (proj1 (forced_close_target_bucket 12 0 5 after_TTTTT "A"%char H1 H2)).
Defined.

(** * Properties of the classification *)


(** C1. For all run lengths tLen and aLen and every threshold (their signs
    play no part), with diff = aLen - tLen the chain yields Ambiguous
    exactly when abs(diff) < threshold, ReverseComplement exactly when
    abs(diff) >= threshold and diff < 0, and Forward exactly when
    abs(diff) >= threshold and diff >= 0; exactly one of the three cases
    applies to each triple. *)
Theorem classify_total (tLen aLen threshold : Z) :
  let diff := aLen - tLen in
  let c := classify diff threshold in
  (c = Ambiguous ↔ Z.abs diff < threshold)
  ∧ (c = ReverseComplement ↔ threshold ≤ Z.abs diff ∧ diff < 0)
  ∧ (c = Forward ↔ threshold ≤ Z.abs diff ∧ 0 ≤ diff)
  ∧ exactly_one (c = Ambiguous) (c = ReverseComplement) (c = Forward).
Proof.
  intros diff c. unfold c, classify, exactly_one.
  destruct (Z.ltb_spec (Z.abs diff) threshold) as [Ha | Ha];
    [|destruct (Z.ltb_spec diff 0) as [Hd | Hd]];
    repeat split; intros; try done; try lia; naive_solver.
Qed.

(** The chain applied to the scanner's result on the empty sequence. *)
Lemma classify_sequence_empty (threshold : Z) :
  classify_sequence "" threshold
  = if 0 <? threshold then Ambiguous else Forward.
Proof. unfold classify_sequence, classify. simpl. reflexivity. Qed.

(** C4, as stated, fails at threshold 0: the scanner returns (0, 0) on the
    empty sequence, abs(0) < 0 is false, and the record is counted and
    written as a Forward record. *)
Lemma empty_sequence_threshold_0_forward :
  (bestT (find_poly "" 0), bestA (find_poly "" 0)) = (0, 0)
  ∧ classify_sequence "" 0 = Forward
  ∧ (let stats :=
       fst (read_and_write_fastx dna_complement
              [MkFastx "r1" "" (Some "")] 0) in
     stats !!! "fwd_cnt" = 1 ∧ stats !!! "ambigous_cnt" = 0)
  ∧ ¬ (∀ threshold : Z,
         0 ≤ threshold → classify_sequence "" threshold = Ambiguous).
Proof.
  split; [|split; [|split]]; [by vm_compute..|].
  intros H. specialize (H 0 (Z.le_refl 0)). vm_compute in H. discriminate H.
Qed.

(** * Properties of the record loops *)

Local Open Scope list_scope.


Lemma len_reverse_complement complement s :
  len (reverse_complement complement s) = len s.
Proof.
  unfold len, reverse_complement.
  by rewrite length_string_of_list_ascii, length_rev, length_map,
    length_list_ascii_of_string.
Qed.

Section Loops.
Variable complement : ascii → ascii.
Variable threshold : Z.

Lemma alignment_body_eq {F : Type} stats out (read : AlignedSegment F) :
  alignment_body complement threshold (stats, out) read
  = (tally threshold (query_sequence read) stats,
     out ++ [emit_alignment complement threshold read]).
Proof.
  unfold alignment_body, tally, emit_alignment, classify_sequence,
    bestT, bestA.
  destruct (classify _ threshold); simpl;
    by rewrite ?len_reverse_complement.
Qed.

Lemma fastx_body_eq stats out (read : FastxRecord) :
  fastx_body complement threshold (stats, out) read
  = (tally threshold (sequence read) stats,
     out ++ [fastq_text (emit_fastx complement threshold read)]).
Proof.
  unfold fastx_body, tally, emit_fastx, classify_sequence, bestT, bestA.
  destruct (classify _ threshold); simpl;
    by rewrite ?len_reverse_complement.
Qed.

Lemma alignment_loop_eq {F : Type} (f : list (AlignedSegment F)) stats out :
  fold_left (alignment_body complement threshold) f (stats, out)
  = (fold_left (λ st s, tally threshold s st) (map query_sequence f) stats,
     out ++ map (emit_alignment complement threshold) f).
Proof.
  revert stats out.
  induction f as [|read f IH]; intros stats out; cbn [fold_left map].
  - by rewrite app_nil_r.
  - by rewrite alignment_body_eq, IH, <- app_assoc.
Qed.

Lemma fastx_loop_eq (f : list FastxRecord) stats out :
  fold_left (fastx_body complement threshold) f (stats, out)
  = (fold_left (λ st s, tally threshold s st) (map sequence f) stats,
     out ++ map (λ read, fastq_text (emit_fastx complement threshold read))
              f).
Proof.
  revert stats out.
  induction f as [|read f IH]; intros stats out; cbn [fold_left map].
  - by rewrite app_nil_r.
  - by rewrite fastx_body_eq, IH, <- app_assoc.
Qed.
End Loops.

(** The entries of an updated [stats]. *)
Ltac stats_lookup :=
  unfold stats_add;
  repeat (rewrite lookup_total_insert_eq
          || rewrite lookup_total_insert_ne by discriminate).

Section Tally.
Variable threshold : Z.

Lemma of_class_cons c s seqs :
  of_class threshold c (s :: seqs)
  = if decide (classify_sequence s threshold = c)
    then s :: of_class threshold c seqs
    else of_class threshold c seqs.
Proof. unfold of_class. by rewrite filter_cons. Qed.

Lemma count_cons s seqs : count (s :: seqs) = 1 + count seqs.
Proof. unfold count. rewrite length_cons. lia. Qed.

Lemma total_cons g s seqs : total g (s :: seqs) = g s + total g seqs.
Proof. reflexivity. Qed.

(** What the loop adds to each entry of [stats]. *)
Lemma tally_fold seqs stats :
  let stats' := fold_left (λ st s, tally threshold s st) seqs stats in
  let fwd := of_class threshold Forward seqs in
  let rc := of_class threshold ReverseComplement seqs in
  let amb := of_class threshold Ambiguous seqs in
  stats' !!! "fwd_cnt" = stats !!! "fwd_cnt" + count fwd
  ∧ stats' !!! "revcomp_cnt" = stats !!! "revcomp_cnt" + count rc
  ∧ stats' !!! "ambigous_cnt" = stats !!! "ambigous_cnt" + count amb
  ∧ stats' !!! "fwd_len" = stats !!! "fwd_len" + total len fwd
  ∧ stats' !!! "revcomp_len" = stats !!! "revcomp_len" + total len rc
  ∧ stats' !!! "ambigous_len" = stats !!! "ambigous_len" + total len amb
  ∧ stats' !!! "polyA_len"
    = stats !!! "polyA_len" + total (λ s, bestA (find_poly s 0)) fwd
  ∧ stats' !!! "polyT_len"
    = stats !!! "polyT_len" + total (λ s, bestT (find_poly s 0)) rc.
Proof.
  revert stats. induction seqs as [|s seqs IH]; intros stats.
  - cbv zeta. unfold of_class, count, total. cbn [fold_left filter length foldr].
    rewrite !Z.add_0_r. done.
  - cbn [fold_left].
    destruct (IH (tally threshold s stats))
      as (H1 & H2 & H3 & H4 & H5 & H6 & H7 & H8).
    cbv zeta. rewrite H1, H2, H3, H4, H5, H6, H7, H8.
    rewrite !of_class_cons. unfold tally.
    destruct (classify_sequence s threshold) eqn:E;
      repeat case_decide; try congruence;
      rewrite ?count_cons, ?total_cons; stats_lookup;
      repeat split; lia.
Qed.

Lemma class_partition seqs :
  count (of_class threshold Forward seqs)
  + count (of_class threshold ReverseComplement seqs)
  + count (of_class threshold Ambiguous seqs)
  = count seqs.
Proof.
  induction seqs as [|s seqs IH]; [done|].
  rewrite !of_class_cons.
  destruct (classify_sequence s threshold);
    repeat case_decide; try congruence; rewrite ?count_cons; lia.
Qed.
End Tally.

(** A key of [stats] stays in the dictionary: the loops never look up a
    missing entry. *)
Lemma tally_keeps_keys (threshold : Z) (seqs : list string)
    (stats : gmap string Z) (key : string) :
  is_Some (stats !! key) →
  is_Some (fold_left (λ st s, tally threshold s st) seqs stats !! key).
Proof.
  revert stats. induction seqs as [|s seqs IH]; intros stats H; [done|].
  cbn [fold_left]. apply IH. unfold tally, stats_add.
  destruct (classify_sequence s threshold);
    rewrite !lookup_insert_is_Some'; tauto.
Qed.

(** The literal 0.001 is 1/1000 correctly rounded. *)
Example smoothing_is_rounded_thousandth :
  float_of_int 1 = inr (SpecFloat.S754_finite false 4503599627370496 (-52))
  ∧ float_of_int 1000
    = inr (SpecFloat.S754_finite false 8796093022208000 (-43))
  ∧ float_div (SpecFloat.S754_finite false 4503599627370496 (-52))
      (SpecFloat.S754_finite false 8796093022208000 (-43))
    = smoothing.
Proof. vm_compute. repeat split. Qed.

(** 25/(2 + 0.001) and 1001/(1 + 0.001) as the program computes them: the
    doubles printed as 12.493753123438282 and 1000.0000000000001. *)
Example average_25_2 :
  average 25 2 = inr (SpecFloat.S754_finite false 7033357738896952 (-49))
  ∧ average 1001 1
    = inr (SpecFloat.S754_finite false 8796093022208001 (-43)).
Proof. vm_compute. repeat split. Qed.

(** The average of an empty class: 0/(0 + 0.001) is +0.0, no exception. *)
Lemma average_0_0 : average 0 0 = inr (SpecFloat.S754_zero false).
Proof. vm_compute. reflexivity. Qed.

(** What [average] returns is the quotient of the converted sum by the
    converted count plus 0.001. *)
Lemma average_returns total count x :
  average total count = inr x → is_quotient x total count.
Proof.
  unfold average, and_then, float_truediv, is_quotient.
  destruct (float_of_int count) as [e | fc]; [done|].
  destruct (float_of_int total) as [e | ft]; [done|].
  destruct (float_is_zero (float_add fc smoothing)); [done|].
  intros [= <-]. by exists ft, fc.
Qed.

Lemma count_nonneg seqs : 0 ≤ count seqs.
Proof. unfold count. lia. Qed.

(** Line 45: the eight entries start at 0. *)
Lemma stats_init_zero :
  stats_init !!! "fwd_cnt" = 0 ∧ stats_init !!! "revcomp_cnt" = 0
  ∧ stats_init !!! "ambigous_cnt" = 0 ∧ stats_init !!! "fwd_len" = 0
  ∧ stats_init !!! "revcomp_len" = 0 ∧ stats_init !!! "ambigous_len" = 0
  ∧ stats_init !!! "polyA_len" = 0 ∧ stats_init !!! "polyT_len" = 0.
Proof. by vm_compute. Qed.

(** The statistics of a loop over records whose sequences are [seqs]. *)
Lemma tally_from_init (threshold : Z) (seqs : list string) :
  let stats := fold_left (λ st s, tally threshold s st) seqs stats_init in
  let fwd := of_class threshold Forward seqs in
  let rc := of_class threshold ReverseComplement seqs in
  let amb := of_class threshold Ambiguous seqs in
  stats !!! "fwd_cnt" = count fwd
  ∧ stats !!! "revcomp_cnt" = count rc
  ∧ stats !!! "ambigous_cnt" = count amb
  ∧ stats !!! "fwd_len" = total len fwd
  ∧ stats !!! "revcomp_len" = total len rc
  ∧ stats !!! "ambigous_len" = total len amb
  ∧ stats !!! "polyA_len" = total (λ s, bestA (find_poly s 0)) fwd
  ∧ stats !!! "polyT_len" = total (λ s, bestT (find_poly s 0)) rc.
Proof.
  destruct (tally_fold threshold seqs stats_init)
    as (H1 & H2 & H3 & H4 & H5 & H6 & H7 & H8).
  destruct stats_init_zero as (Z1 & Z2 & Z3 & Z4 & Z5 & Z6 & Z7 & Z8).
  cbv zeta in *.
  rewrite H1, H2, H3, H4, H5, H6, H7, H8, Z1, Z2, Z3, Z4, Z5, Z6, Z7, Z8.
  done.
Qed.


(** The records written by the two loops, in input order. *)
Lemma alignment_out {F : Type} complement (f : list (AlignedSegment F))
    threshold :
  snd (read_and_write_alignment complement f threshold)
  = map (emit_alignment complement threshold) f.
Proof. unfold read_and_write_alignment. by rewrite alignment_loop_eq. Qed.

Lemma fastx_out complement (f : list FastxRecord) threshold :
  snd (read_and_write_fastx complement f threshold)
  = map (λ read, fastq_text (emit_fastx complement threshold read)) f.
Proof. unfold read_and_write_fastx. by rewrite fastx_loop_eq. Qed.

(** The statistics of the FASTA/FASTQ loop are those of the alignment loop
    on the same sequences. *)
Lemma fastx_stats_eq complement (f : list FastxRecord) threshold :
  fst (read_and_write_fastx complement f threshold)
  = fold_left (λ st s, tally threshold s st) (map sequence f) stats_init.
Proof. unfold read_and_write_fastx. by rewrite fastx_loop_eq. Qed.

(** C9. A record of the stream that is classified Forward or Ambiguous
    (that is, not ReverseComplement) is written at its position exactly as
    it was read, with every field it carries. *)
Theorem forward_ambiguous_unmodified {F : Type} (complement : ascii → ascii)
    (f : list (AlignedSegment F)) (threshold : Z) (i : nat)
    (read : AlignedSegment F) :
  f !! i = Some read →
  classify_sequence (query_sequence read) threshold ≠ ReverseComplement →
  snd (read_and_write_alignment complement f threshold) !! i = Some read.
Proof.
  intros Hi Hclass.
  rewrite alignment_out, list_lookup_fmap, Hi. simpl. f_equal.
  unfold emit_alignment.
  by destruct (classify_sequence (query_sequence read) threshold).
Qed.

Lemma forward_ambiguous_unmodified_witness :
  [MkSegment "AAAAAAAAAAAA" None 7%nat; MkSegment "ACGT" None 9%nat] !! 1%nat
  = Some (MkSegment "ACGT" None 9%nat)
  ∧ classify_sequence "ACGT" 5 ≠ ReverseComplement
  ∧ snd (read_and_write_alignment dna_complement
           [MkSegment "AAAAAAAAAAAA" None 7%nat; MkSegment "ACGT" None 9%nat] 5)
      !! 1%nat
    = Some (MkSegment "ACGT" None 9%nat).
Proof.
  assert (H1 : [MkSegment "AAAAAAAAAAAA" None 7%nat; MkSegment "ACGT" None 9%nat]
                 !! 1%nat = Some (MkSegment "ACGT" None 9%nat)) by reflexivity.
  assert (H2 : classify_sequence "ACGT" 5 ≠ ReverseComplement)
    by (vm_compute; intros E; discriminate E).
  split; [exact H1 | split; [exact H2 |]].
  exact (forward_ambiguous_unmodified dna_complement _ 5 1
           (MkSegment "ACGT" None 9%nat) H1 H2).
Defined.

(** X12. The same on the FASTA/FASTQ path: the text written for such a record
    carries its name, sequence and quality as read. *)
Lemma fastx_unmodified_unless_revcomp (complement : ascii → ascii)
    (f : list FastxRecord) (threshold : Z) (i : nat) (read : FastxRecord) :
  f !! i = Some read →
  classify_sequence (sequence read) threshold ≠ ReverseComplement →
  snd (read_and_write_fastx complement f threshold) !! i
  = Some (fastq_text read).
Proof.
  intros Hi Hclass.
  rewrite fastx_out, list_lookup_fmap, Hi. simpl. do 2 f_equal.
  unfold emit_fastx.
  by destruct (classify_sequence (sequence read) threshold).
Qed.

(** X13. Only the ReverseComplement class rewrites a record, and it rewrites
    the sequence alone: on the FASTA/FASTQ path the quality written is the
    quality read, not its reversal. *)
Lemma fastx_revcomp_written (complement : ascii → ascii)
    (f : list FastxRecord) (threshold : Z) (i : nat) (read : FastxRecord) :
  f !! i = Some read →
  classify_sequence (sequence read) threshold = ReverseComplement →
  snd (read_and_write_fastx complement f threshold) !! i
  = Some (fastq_text
            (MkFastx (name read)
               (reverse_complement complement (sequence read))
               (quality read))).
Proof.
  intros Hi Hclass.
  rewrite fastx_out, list_lookup_fmap, Hi. simpl. do 2 f_equal.
  unfold emit_fastx. by rewrite Hclass.
Qed.


(** C2, evaluated on the code. The FASTQ record r1 with sequence
    "TTTTTTCCCCCC" and quality "ABCDEFGHIJKL" is classified
    ReverseComplement at threshold 5; the text written carries the reverse
    complement "GGGGGGAAAAAA" and the quality as read, "ABCDEFGHIJKL",
    which is not its reversal "LKJIHGFEDCBA". *)
Theorem fastx_revcomp_quality_not_reversed :
  let read := MkFastx "r1" "TTTTTTCCCCCC" (Some "ABCDEFGHIJKL") in
  classify_sequence (sequence read) 5 = ReverseComplement
  ∧ reverse_complement dna_complement (sequence read) = "GGGGGGAAAAAA"
  ∧ reverse_quality "ABCDEFGHIJKL" = "LKJIHGFEDCBA"
  ∧ snd (read_and_write_fastx dna_complement [read] 5)
    = [fastq_text (MkFastx "r1" "GGGGGGAAAAAA" (Some "ABCDEFGHIJKL"))]
  ∧ snd (read_and_write_fastx dna_complement [read] 5)
    ≠ [fastq_text (MkFastx "r1" "GGGGGGAAAAAA" (Some "LKJIHGFEDCBA"))].
Proof.
  vm_compute. repeat split; intros E; discriminate E.
Qed.

(** C4, amended. For every threshold of at least 1, a FASTA/FASTQ record
    whose sequence is empty is handled without error: the scanner returns 0
    for 'T' and for 'A' (at any tolerance), the record is classified
    Ambiguous, counted as such with length 0, and written as read. *)
Theorem empty_sequence_ambiguous (complement : ascii → ascii)
    (threshold max_mismatches : Z) (read : FastxRecord)
    (stats : gmap string Z) (out : list string) :
  0 < threshold →
  sequence read = "" →
  bestT (find_poly (sequence read) max_mismatches) = 0
  ∧ bestA (find_poly (sequence read) max_mismatches) = 0
  ∧ classify_sequence (sequence read) threshold = Ambiguous
  ∧ fastx_body complement threshold (stats, out) read
    = (stats_add "ambigous_len" 0 (stats_add "ambigous_cnt" 1 stats),
       out ++ [fastq_text read]).
Proof.
  intros Hthr Hseq.
  assert (Hclass : classify_sequence "" threshold = Ambiguous).
  { rewrite classify_sequence_empty.
    by destruct (Z.ltb_spec 0 threshold); [|lia]. }
  rewrite fastx_body_eq. unfold tally, emit_fastx.
  rewrite Hseq, Hclass. done.
Qed.

Lemma empty_sequence_ambiguous_witness :
  0 < 5
  ∧ sequence (MkFastx "r1" "" (Some "")) = ""
  ∧ classify_sequence (sequence (MkFastx "r1" "" (Some ""))) 5 = Ambiguous
  ∧ fastx_body dna_complement 5 (stats_init, []) (MkFastx "r1" "" (Some ""))
    = (stats_add "ambigous_len" 0 (stats_add "ambigous_cnt" 1 stats_init),
       [fastq_text (MkFastx "r1" "" (Some ""))]).
Proof.
  assert (H1 : 0 < 5) by lia.
  assert (H2 : sequence (MkFastx "r1" "" (Some "")) = "") by reflexivity.
  split; [exact H1 | split; [exact H2 |]].
  exact (proj2 (proj2 (empty_sequence_ambiguous dna_complement 5 0
                         (MkFastx "r1" "" (Some "")) stats_init [] H1 H2))).
Defined.

(** With a negative threshold no sequence is classified Ambiguous. *)
Lemma negative_threshold_never_ambiguous (threshold : Z) (s : string) :
  threshold < 0 → classify_sequence s threshold ≠ Ambiguous.
Proof.
  intros Hthr. unfold classify_sequence, classify.
  destruct (Z.ltb_spec (Z.abs (find_poly s 0 !!! "A"%char
                               - find_poly s 0 !!! "T"%char)) threshold);
    [lia|]. by case_match.
Qed.

Lemma negative_threshold_no_ambiguous_class (threshold : Z) seqs :
  threshold < 0 → of_class threshold Ambiguous seqs = [].
Proof.
  intros Hthr. induction seqs as [|s seqs IH]; [done|].
  rewrite of_class_cons, IH. case_decide; [|done].
  by destruct (negative_threshold_never_ambiguous threshold s).
Qed.




(** * Further properties of the scanner *)

Section ScannerSigns.
Variables n max_mismatches : Z.

Lemma scan_wf_init : scan_wf scan_init.
Proof.
  unfold scan_wf, scan_init, bestT, bestA. simpl.
  repeat split; try done; by left.
Qed.

Lemma scan_wf_step st ib :
  scan_wf st → scan_wf (find_poly_step n max_mismatches st ib).
Proof.
  intros (Hl & Hm & Hb & Hd & HT & HA).
  unfold find_poly_step, enter_half, scan_base, scan_wf, bestT, bestA in *.
  destruct (fst ib =? n / 2); simpl;
    repeat case_decide; repeat case_match; simpl;
    rewrite ?dom_insert_L, ?Hd;
    (destruct Hb as [Hb | Hb]; rewrite ?Hb);
    rewrite ?lookup_total_insert_eq,
      ?(lookup_total_insert_ne _ "A"%char "T"%char),
      ?(lookup_total_insert_ne _ "T"%char "A"%char) by discriminate;
    repeat split; try lia; try tauto; try set_solver.
Qed.

Lemma scan_wf_scan l i st :
  scan_wf st → scan_wf (scan_from n max_mismatches i st l).
Proof.
  revert i st. induction l as [|c l IH]; intros i st H; [done|].
  rewrite scan_from_cons. by apply IH, scan_wf_step.
Qed.
End ScannerSigns.

(** X1. The dictionary returned by [find_poly] has exactly the keys 'T' and
    'A', and both entries are non-negative, for every sequence and every
    tolerance. *)
Theorem find_poly_two_nonneg_entries (sequence : string) (max_mismatches : Z) :
  dom (find_poly sequence max_mismatches) = ({["T"%char; "A"%char]} : gset ascii)
  ∧ 0 ≤ bestT (find_poly sequence max_mismatches)
  ∧ 0 ≤ bestA (find_poly sequence max_mismatches).
Proof.
  unfold find_poly.
  by destruct (scan_wf_scan (len sequence) max_mismatches
                 (list_ascii_of_string sequence) 0 scan_init scan_wf_init)
    as (_ & _ & _ & Hd & HT & HA).
Qed.

(** A tolerance of 0 or less never tolerates a mismatch: the step is the
    step at tolerance 0. *)
Lemma find_poly_step_nonpositive (n max_mismatches : Z) st ib :
  max_mismatches ≤ 0 → 0 ≤ current_mismatches st →
  find_poly_step n max_mismatches st ib = find_poly_step n 0 st ib.
Proof.
  intros Hmm Hcm. unfold find_poly_step, scan_base.
  assert (H : 0 ≤ current_mismatches (enter_half n (fst ib) st)).
  { unfold enter_half. by destruct (fst ib =? n / 2). }
  destruct (Z.ltb_spec (current_mismatches (enter_half n (fst ib) st))
              max_mismatches); [lia|].
  destruct (Z.ltb_spec (current_mismatches (enter_half n (fst ib) st)) 0);
    [lia | done].
Qed.

Lemma scan_from_nonpositive (n max_mismatches : Z) l i st :
  max_mismatches ≤ 0 → scan_wf st →
  scan_from n max_mismatches i st l = scan_from n 0 i st l.
Proof.
  intros Hmm. revert i st. induction l as [|c l IH]; intros i st Hwf; [done|].
  rewrite !scan_from_cons, find_poly_step_nonpositive; [|done|apply Hwf].
  apply IH. by apply scan_wf_step.
Qed.

(** X3. A negative tolerance is the tolerance 0: [find_poly] returns the same
    dictionary for every tolerance that is not positive. *)
Theorem find_poly_nonpositive_tolerance (sequence : string)
    (max_mismatches : Z) :
  max_mismatches ≤ 0 →
  find_poly sequence max_mismatches = find_poly sequence 0.
Proof.
  intros Hmm. unfold find_poly.
  by rewrite scan_from_nonpositive by (done || apply scan_wf_init).
Qed.

Lemma find_poly_nonpositive_tolerance_witness :
  -3 ≤ 0 ∧ find_poly "TTCTTTAGAAAA" (-3) = find_poly "TTCTTTAGAAAA" 0.
Proof.
  assert (H : -3 ≤ 0) by lia.
  split; [exact H|].
  exact (find_poly_nonpositive_tolerance "TTCTTTAGAAAA" (-3) H).
Defined.

Section Tolerance.
Variables n max_mismatches : Z.

Lemma scan_below_init : scan_below scan_init scan_init.
Proof.
  unfold scan_below, scan_init, bestT, bestA. simpl.
  repeat split; try done; by left.
Qed.

Lemma scan_below_step st0 st ib :
  scan_below st0 st →
  scan_below (find_poly_step n 0 st0 ib)
    (find_poly_step n max_mismatches st ib).
Proof.
  intros (Hb & Hk & Hm & Hl & Hlb & HT & HA).
  unfold find_poly_step, enter_half, scan_base, scan_below, bestT, bestA in *.
  destruct (fst ib =? n / 2); simpl.
  - repeat case_decide; repeat case_match; simpl;
      rewrite ?lookup_total_insert_eq,
        ?(lookup_total_insert_ne _ "A"%char "T"%char),
        ?(lookup_total_insert_ne _ "T"%char "A"%char) by discriminate;
      repeat split; try lia; try tauto.
  - rewrite <- Hb. destruct Hk as [Hk | Hk]; rewrite Hk in *;
      repeat case_decide; repeat case_match; simpl;
      rewrite ?lookup_total_insert_eq,
        ?(lookup_total_insert_ne _ "A"%char "T"%char),
        ?(lookup_total_insert_ne _ "T"%char "A"%char) by discriminate;
      repeat split; try lia; try tauto.
Qed.

Lemma scan_below_scan l i st0 st :
  scan_below st0 st →
  scan_below (scan_from n 0 i st0 l) (scan_from n max_mismatches i st l).
Proof.
  revert i st0 st. induction l as [|c l IH]; intros i st0 st H; [done|].
  rewrite !scan_from_cons. by apply IH, scan_below_step.
Qed.
End Tolerance.

(** X4. Tolerating mismatches never shortens what the scanner reports: each
    entry at any tolerance is at least the entry at tolerance 0. *)
Theorem find_poly_tolerance_lower_bound (sequence : string)
    (max_mismatches : Z) :
  bestT (find_poly sequence 0) ≤ bestT (find_poly sequence max_mismatches)
  ∧ bestA (find_poly sequence 0) ≤ bestA (find_poly sequence max_mismatches).
Proof.
  unfold find_poly.
  destruct (scan_below_scan (len sequence) max_mismatches
              (list_ascii_of_string sequence) 0 scan_init scan_init
              scan_below_init) as (_ & _ & _ & _ & _ & HT & HA).
  lia.
Qed.

(** ** Runs *)

Lemma run_prefix_le_longest c l : (run_prefix c l ≤ longest_run c l)%nat.
Proof. destruct l as [|x l]; simpl; lia. Qed.

Lemma run_prefix_replicate c k l :
  (k ≤ run_prefix c (replicate k c ++ l))%nat.
Proof.
  induction k as [|k IH]; simpl; [lia|].
  rewrite decide_True by done. lia.
Qed.

Lemma run_prefix_has_run c k l :
  (k ≤ run_prefix c l)%nat → l = replicate k c ++ drop k l.
Proof.
  revert l. induction k as [|k IH]; intros l Hk; [done|].
  destruct l as [|x l]; simpl in Hk; [lia|].
  destruct (decide (x = c)) as [-> | _]; [|lia].
  simpl. f_equal. apply IH. lia.
Qed.

(** [longest_run] is the largest [k] such that [k] consecutive copies
    occur. *)
Lemma longest_run_spec c k l : (k ≤ longest_run c l)%nat ↔ has_run c k l.
Proof.
  split.
  - induction l as [|x l IH]; intros Hk.
    + exists [], []. simpl in Hk. by replace k with 0%nat by lia.
    + cbn [longest_run] in Hk.
      destruct (decide (k ≤ run_prefix c (x :: l))%nat) as [Hp | Hp].
      * exists [], (drop k (x :: l)). by apply run_prefix_has_run.
      * destruct IH as (l1 & l2 & ->); [lia|].
        by exists (x :: l1), l2.
  - intros (l1 & l2 & ->). induction l1 as [|x l1 IH].
    + pose proof (run_prefix_replicate c k l2).
      pose proof (run_prefix_le_longest c (replicate k c ++ l2)).
      simpl. lia.
    + rewrite <- app_comm_cons. cbn [longest_run]. lia.
Qed.

Lemma longest_run_le_length c l : (longest_run c l ≤ length l)%nat.
Proof.
  destruct (longest_run_spec c (longest_run c l) l) as [H _].
  destruct H as (l1 & l2 & Hl); [done|].
  rewrite Hl at 2. rewrite !length_app, length_replicate. lia.
Qed.

(** ** The scan at tolerance 0 *)

(** Away from the middle index the loop body is [scan_base]. *)
Lemma scan_from_plain n max_mismatches l i st :
  i + Z.of_nat (length l) ≤ n / 2 ∨ n / 2 < i →
  scan_from n max_mismatches i st l = scan_plain max_mismatches st l.
Proof.
  revert i st. induction l as [|x l IH]; intros i st Hi; [done|].
  rewrite scan_from_cons, IH by (rewrite length_cons in Hi; lia).
  unfold find_poly_step, enter_half. simpl.
  destruct (Z.eqb_spec i (n / 2)) as [-> | _]; [|done].
  rewrite length_cons in Hi. lia.
Qed.

(** At tolerance 0, scanning [l] for the target [c] from a state whose run
    has length [r] raises the entry of [c] to the longest of: its value,
    [r] plus the copies of [c] heading [l], and the longest run of [c] in
    [l]. Other entries are kept. *)
Lemma scan_plain_exact c l st :
  current_poly_base st = c →
  0 ≤ current_poly_length st ≤ max_poly st !!! c →
  0 ≤ current_mismatches st →
  max_poly (scan_plain 0 st l) !!! c
  = Z.max (max_poly st !!! c)
      (Z.max (current_poly_length st + Z.of_nat (run_prefix c l))
         (Z.of_nat (longest_run c l)))
  ∧ (∀ k, k ≠ c → max_poly (scan_plain 0 st l) !!! k = max_poly st !!! k)
  ∧ current_poly_base (scan_plain 0 st l) = c.
Proof.
  revert st. induction l as [|x l IH]; intros st Hc Hl Hm.
  - simpl. repeat split; [lia | done].
  - pose proof (run_prefix_le_longest c l) as Hrp.
    unfold scan_plain. cbn [fold_left]. fold (scan_plain 0 (scan_base 0 st x) l).
    cbn [run_prefix longest_run].
    unfold scan_base at 1 2 3. rewrite Hc.
    destruct (decide (x = c)) as [-> | Hx].
    + edestruct IH as (H1 & H2 & H3); [| | | rewrite H1, H3; split; [|split; [|done]]].
      * done.
      * simpl. rewrite lookup_total_insert_eq. lia.
      * simpl. lia.
      * simpl. rewrite lookup_total_insert_eq. lia.
      * intros k Hk. rewrite H2 by done. simpl.
        by rewrite lookup_total_insert_ne.
    + destruct (Z.ltb_spec (current_mismatches st) 0); [lia|].
      edestruct IH as (H1 & H2 & H3); [| | | rewrite H1, H3; split; [|split; [|done]]].
      * done.
      * simpl. rewrite lookup_total_insert_eq. lia.
      * simpl. lia.
      * simpl. rewrite lookup_total_insert_eq. lia.
      * intros k Hk. rewrite H2 by done. simpl.
        by rewrite lookup_total_insert_ne.
Qed.

(** The state in which line 29-30 leave the scan. *)
Lemma enter_half_middle n st :
  enter_half n (n / 2) st
  = {| max_poly := max_poly st;
       current_poly_length := 0;
       current_mismatches := 0;
       current_poly_base := "A"%char |}.
Proof. unfold enter_half. by rewrite Z.eqb_refl. Qed.

(** From the middle index on, the loop is [scan_plain] started on the
    reset state. *)
Lemma scan_from_middle n max_mismatches l st :
  l ≠ [] →
  scan_from n max_mismatches (n / 2) st l
  = scan_plain max_mismatches (enter_half n (n / 2) st) l.
Proof.
  destruct l as [|x l]; [done|]. intros _.
  rewrite scan_from_cons, scan_from_plain by lia. done.
Qed.

(** At tolerance 0 the 'T' entry is the longest run of 'T' among the first
    floor(L/2) symbols and the 'A' entry the longest run of 'A' among the
    others. *)
Lemma find_poly_longest_runs (sequence : string) :
  let chars := list_ascii_of_string sequence in
  let h := Z.to_nat (len sequence / 2) in
  bestT (find_poly sequence 0)
  = Z.of_nat (longest_run "T"%char (take h chars))
  ∧ bestA (find_poly sequence 0)
    = Z.of_nat (longest_run "A"%char (drop h chars)).
Proof.
  intros chars h. unfold find_poly, bestT, bestA. fold chars.
  set (L := len sequence).
  assert (HL : L = Z.of_nat (length chars)).
  { unfold L, len, chars. by rewrite length_list_ascii_of_string. }
  assert (Hh : Z.of_nat h = L / 2).
  { unfold h. fold L. rewrite Z2Nat.id; [done|]. apply Z.div_pos; lia. }
  assert (Hle : (h ≤ length chars)%nat).
  { assert (L / 2 ≤ L) by (apply Z.div_le_upper_bound; lia). lia. }
  rewrite <- (take_drop h chars) at 1 3.
  rewrite scan_from_app, length_take, Nat.min_l, Z.add_0_l, Hh by done.
  rewrite (scan_from_plain L 0 (take h chars))
    by (rewrite length_take; lia).
  destruct (scan_plain_exact "T"%char (take h chars) scan_init)
    as (T1 & T2 & T3); [done | by vm_compute | done |].
  pose proof (run_prefix_le_longest "T"%char (take h chars)) as HrpT.
  set (st1 := scan_plain 0 scan_init (take h chars)) in *.
  assert (HA1 : max_poly st1 !!! "A"%char = 0) by (by rewrite T2).
  assert (HT1 : max_poly st1 !!! "T"%char
                = Z.of_nat (longest_run "T"%char (take h chars))).
  { rewrite T1. change (max_poly scan_init !!! "T"%char) with 0.
    change (current_poly_length scan_init) with 0. lia. }
  destruct (drop h chars) as [|x l] eqn:Hd.
  - change (scan_from L 0 (L / 2) st1 []) with st1.
    by rewrite HT1, HA1.
  - rewrite scan_from_middle, enter_half_middle by done.
    pose proof (run_prefix_le_longest "A"%char (x :: l)) as HrpA.
    set (st2 := {| max_poly := max_poly st1;
                   current_poly_length := 0;
                   current_mismatches := 0;
                   current_poly_base := "A"%char |}).
    assert (HA2 : max_poly st2 !!! "A"%char = 0) by exact HA1.
    destruct (scan_plain_exact "A"%char (x :: l) st2) as (A1 & A2 & _);
      [done | split; [done | by rewrite HA2] | done |].
    rewrite A1, A2, HA2 by done.
    change (current_poly_length st2) with 0.
    change (max_poly st2) with (max_poly st1). rewrite HT1.
    split; [done | lia].
Qed.

(** X2. At tolerance 0, which is the tolerance of both record loops, the
    scanner reports exact runs: the 'T' entry is at least k exactly when the
    first floor(L/2) symbols contain k consecutive 'T', and the 'A' entry
    is at least k exactly when the other symbols contain k consecutive
    'A'. *)
Theorem find_poly_exact_runs (sequence : string) (k : nat) :
  let chars := list_ascii_of_string sequence in
  let h := Z.to_nat (len sequence / 2) in
  (Z.of_nat k ≤ bestT (find_poly sequence 0)
   ↔ ∃ l1 l2, take h chars = l1 ++ replicate k "T"%char ++ l2)
  ∧ (Z.of_nat k ≤ bestA (find_poly sequence 0)
     ↔ ∃ l1 l2, drop h chars = l1 ++ replicate k "A"%char ++ l2).
Proof.
  intros chars h.
  destruct (find_poly_longest_runs sequence) as [-> ->].
  fold chars h.
  rewrite <- !Nat2Z.inj_le, !longest_run_spec. done.
Qed.

(** At tolerance 0 both entries lie between 0 and the length of their
    half. *)
Lemma find_poly_0_bounds (s : string) :
  0 ≤ bestT (find_poly s 0) ≤ len s / 2
  ∧ 0 ≤ bestA (find_poly s 0) ≤ len s - len s / 2.
Proof.
  destruct (find_poly_longest_runs s) as [-> ->].
  set (chars := list_ascii_of_string s).
  set (h := Z.to_nat (len s / 2)).
  assert (HL : len s = Z.of_nat (length chars)).
  { unfold len, chars. by rewrite length_list_ascii_of_string. }
  assert (Hh : Z.of_nat h = len s / 2).
  { unfold h. rewrite Z2Nat.id; [done|]. apply Z.div_pos; lia. }
  assert (len s / 2 ≤ len s) by (apply Z.div_le_upper_bound; lia).
  pose proof (longest_run_le_length "T"%char (take h chars)) as HT.
  pose proof (longest_run_le_length "A"%char (drop h chars)) as HA.
  rewrite length_take in HT. rewrite length_drop in HA. lia.
Qed.

(** X6. A read too short to hold a run of the threshold's length in its longer
    half is always classified Ambiguous: with the default threshold 5,
    every read of at most 8 symbols. *)
Theorem short_read_ambiguous (s : string) (threshold : Z) :
  len s - len s / 2 < threshold →
  classify_sequence s threshold = Ambiguous.
Proof.
  intros Hshort. unfold classify_sequence, classify.
  pose proof (find_poly_0_bounds s) as [HT HA]. unfold bestT, bestA in *.
  assert (len s / 2 ≤ len s - len s / 2).
  { assert (0 ≤ len s) by (unfold len; lia).
    pose proof (Z.mul_div_le (len s) 2). lia. }
  destruct (Z.ltb_spec (Z.abs (find_poly s 0 !!! "A"%char
                               - find_poly s 0 !!! "T"%char)) threshold);
    [done | lia].
Qed.

Lemma short_read_ambiguous_witness :
  len "TTTTAAAA" - len "TTTTAAAA" / 2 < 5
  ∧ classify_sequence "TTTTAAAA" 5 = Ambiguous.
Proof.
  assert (H : len "TTTTAAAA" - len "TTTTAAAA" / 2 < 5) by (vm_compute; done).
  split; [exact H|].
  exact (short_read_ambiguous "TTTTAAAA" 5 H).
Defined.

(** X7. Raising the threshold keeps a record's class or makes it Ambiguous; it
    never turns Forward into ReverseComplement or back. *)
Theorem threshold_only_adds_ambiguous (s : string) (t1 t2 : Z) :
  t1 ≤ t2 →
  classify_sequence s t2 = classify_sequence s t1
  ∨ classify_sequence s t2 = Ambiguous.
Proof.
  intros Ht. unfold classify_sequence, classify.
  set (diff := find_poly s 0 !!! "A"%char - find_poly s 0 !!! "T"%char).
  destruct (Z.ltb_spec (Z.abs diff) t2); [by right|].
  destruct (Z.ltb_spec (Z.abs diff) t1); [lia|]. by left.
Qed.

Lemma threshold_only_adds_ambiguous_witness :
  2 ≤ 5
  ∧ (classify_sequence "TTTGGGGAAAAAAA" 5 = classify_sequence "TTTGGGGAAAAAAA" 2
     ∨ classify_sequence "TTTGGGGAAAAAAA" 5 = Ambiguous).
Proof.
  assert (H : 2 ≤ 5) by lia.
  split; [exact H|].
  exact (threshold_only_adds_ambiguous "TTTGGGGAAAAAAA" 2 5 H).
Defined.

(** ** Runs under reversal, relabelling and truncation *)

Lemma longest_run_eq c c' l l' :
  (∀ k, has_run c k l ↔ has_run c' k l') →
  longest_run c l = longest_run c' l'.
Proof.
  intros H.
  assert (longest_run c l ≤ longest_run c' l')%nat
    by (apply longest_run_spec, H, longest_run_spec; done).
  assert (longest_run c' l' ≤ longest_run c l)%nat
    by (apply longest_run_spec, H, longest_run_spec; done).
  lia.
Qed.

Lemma longest_run_mono c l l' :
  (∀ k, has_run c k l → has_run c k l') →
  (longest_run c l ≤ longest_run c l')%nat.
Proof. intros H. by apply longest_run_spec, H, longest_run_spec. Qed.

Lemma rev_repeat_replicate {A : Type} (k : nat) (x : A) :
  rev (replicate k x) = replicate k x.
Proof. rewrite rev_alt. apply reverse_replicate. Qed.

Lemma has_run_rev c k l : has_run c k (rev l) ↔ has_run c k l.
Proof.
  assert (Hrev : ∀ l0, has_run c k l0 → has_run c k (rev l0)).
  { intros l0 (l1 & l2 & ->). exists (rev l2), (rev l1).
    by rewrite !rev_app_distr, rev_repeat_replicate, <- app_assoc. }
  split; [|apply Hrev].
  intros H. rewrite <- (rev_involutive l). by apply Hrev.
Qed.

Lemma has_run_map (f : ascii → ascii) c c' k l :
  (∀ x, f x = c' ↔ x = c) →
  has_run c' k (map f l) ↔ has_run c k l.
Proof.
  intros Hf. split.
  - intros (l1 & l2 & H).
    apply fmap_app_inv in H as (m1 & m23 & -> & H & ->).
    symmetry in H.
    apply fmap_app_inv in H as (m2 & m3 & Hm2 & -> & ->).
    exists m1, m3. do 2 f_equal.
    clear -Hm2 Hf. revert m2 Hm2.
    induction k as [|k IH]; intros [|x m2] Hm2; try done.
    simpl in Hm2. injection Hm2 as Hx Hm2.
    simpl. f_equal; [by apply Hf | by apply IH].
  - intros (l1 & l2 & ->). exists (map f l1), (map f l2).
    rewrite !map_app. do 2 f_equal.
    change (map f (replicate k c)) with (f <$> replicate k c).
    rewrite fmap_replicate. f_equal. by apply Hf.
Qed.

Lemma has_run_take c k i j l :
  (i ≤ j)%nat → has_run c k (take i l) → has_run c k (take j l).
Proof.
  intros Hij (l1 & l2 & H).
  assert (E : take j l = take i l ++ drop i (take j l)).
  { rewrite <- (take_drop i (take j l)) at 1.
    by rewrite take_take, Nat.min_l. }
  exists l1, (l2 ++ drop i (take j l)).
  rewrite E at 1. rewrite H. by rewrite <- !app_assoc.
Qed.

Lemma has_run_drop c k i j l :
  (i ≤ j)%nat → has_run c k (drop j l) → has_run c k (drop i l).
Proof.
  intros Hij (l1 & l2 & H).
  assert (E : drop i l = take (j - i) (drop i l) ++ drop j l).
  { rewrite <- (take_drop (j - i) (drop i l)) at 1.
    rewrite drop_drop. by replace (i + (j - i))%nat with j by lia. }
  exists (take (j - i) (drop i l) ++ l1), l2.
  rewrite E at 1. rewrite H. by rewrite <- app_assoc.
Qed.

(** ** Scanning a reverse complement *)

Example dna_complement_table :
  reverse_complement dna_complement "ACGTUacgtuMRWSYKVHDBXN-*z"
  = "z*-NXVHDBMRSWYKaacgtAACGT".
Proof. vm_compute. reflexivity. Qed.

(** The table of Biopython is such a table: 'U' also goes to 'A', which
    the condition allows. *)
Lemma dna_complement_pairs_T_with_A : pairs_T_with_A dna_complement.
Proof.
  split; [done|].
  intros [[] [] [] [] [] [] [] []]; vm_compute; intros E;
    first [reflexivity | discriminate E].
Qed.

Lemma longest_run_le c c' l l' :
  (∀ k, has_run c k l → has_run c' k l') →
  (longest_run c l ≤ longest_run c' l')%nat.
Proof. intros H. by apply longest_run_spec, H, longest_run_spec. Qed.

Lemma has_run_map_image (f : ascii → ascii) c c' k l :
  f c = c' → has_run c k l → has_run c' k (map f l).
Proof.
  intros Hf (l1 & l2 & ->). exists (map f l1), (map f l2).
  rewrite !map_app. do 2 f_equal.
  change (map f (replicate k c)) with (f <$> replicate k c).
  by rewrite fmap_replicate, Hf.
Qed.

Lemma has_run_map_preimage (f : ascii → ascii) c c' k l :
  (∀ x, f x = c' → x = c) → has_run c' k (map f l) → has_run c k l.
Proof.
  intros Hf (l1 & l2 & H).
  apply fmap_app_inv in H as (m1 & m23 & -> & H & ->).
  symmetry in H.
  apply fmap_app_inv in H as (m2 & m3 & Hm2 & -> & ->).
  exists m1, m3. do 2 f_equal.
  clear -Hm2 Hf. revert m2 Hm2.
  induction k as [|k IH]; intros [|x m2] Hm2; try done.
  simpl in Hm2. injection Hm2 as Hx Hm2.
  simpl. f_equal; [by apply Hf | by apply IH].
Qed.

Lemma list_ascii_reverse_complement complement s :
  list_ascii_of_string (reverse_complement complement s)
  = rev (map complement (list_ascii_of_string s)).
Proof. unfold reverse_complement. apply list_ascii_of_string_of_list_ascii. Qed.

(** Under such a table the 'A' entry of the reverse complement is at least
    the 'T' entry of the sequence, and its 'T' entry at most the 'A' entry
    of the sequence. *)
Lemma find_poly_reverse_complement complement (s : string) :
  pairs_T_with_A complement →
  bestT (find_poly s 0)
  ≤ bestA (find_poly (reverse_complement complement s) 0)
  ∧ bestT (find_poly (reverse_complement complement s) 0)
    ≤ bestA (find_poly s 0).
Proof.
  intros [HTA HAT].
  destruct (find_poly_longest_runs s) as [-> ->].
  destruct (find_poly_longest_runs (reverse_complement complement s))
    as [-> ->].
  rewrite len_reverse_complement, list_ascii_reverse_complement.
  set (chars := list_ascii_of_string s).
  set (h := Z.to_nat (len s / 2)).
  assert (Hh : (h ≤ length chars - h)%nat).
  { assert (len s = Z.of_nat (length chars))
      by (unfold len, chars; by rewrite length_list_ascii_of_string).
    assert (Z.of_nat h = len s / 2)
      by (unfold h; rewrite Z2Nat.id; [done | apply Z.div_pos; lia]).
    pose proof (Z.mul_div_le (len s) 2). lia. }
  rewrite skipn_rev, firstn_rev, length_map, firstn_map, skipn_map.
  split; apply Nat2Z.inj_le, longest_run_le; intros k Hk.
  - apply has_run_rev, (has_run_map_image _ "T"%char); [done|].
    by apply (has_run_take _ _ h).
  - apply has_run_rev, (has_run_map_preimage _ "A"%char) in Hk; [|done].
    by apply (has_run_drop _ _ h (length chars - h)).
Qed.

Lemma classify_reverse_complement (complement : ascii → ascii)
    (s : string) (threshold : Z) :
  pairs_T_with_A complement →
  classify_sequence s threshold = ReverseComplement →
  classify_sequence (reverse_complement complement s) threshold = Forward.
Proof.
  intros Hc. pose proof (find_poly_reverse_complement complement s Hc) as [H1 H2].
  unfold classify_sequence, classify, bestT, bestA in *.
  set (s' := reverse_complement complement s) in *.
  destruct (Z.ltb_spec (Z.abs (find_poly s 0 !!! "A"%char
                               - find_poly s 0 !!! "T"%char)) threshold);
    [done|].
  destruct (Z.ltb_spec (find_poly s 0 !!! "A"%char
                        - find_poly s 0 !!! "T"%char) 0); [|done].
  intros _.
  destruct (Z.ltb_spec (Z.abs (find_poly s' 0 !!! "A"%char
                               - find_poly s' 0 !!! "T"%char)) threshold);
    [lia|].
  destruct (Z.ltb_spec (find_poly s' 0 !!! "A"%char
                        - find_poly s' 0 !!! "T"%char) 0); [lia | done].
Qed.

(** X8. The re-orientation agrees with the classifier: a sequence classified
    ReverseComplement is classified Forward once it is replaced by its
    reverse complement, at the same threshold, whenever the complement
    table sends 'T' to 'A' and nothing but 'A' to 'T', as the table of
    Biopython does. *)
Theorem reverse_complement_then_forward (complement : ascii → ascii)
    (s : string) (threshold : Z) :
  pairs_T_with_A complement →
  classify_sequence s threshold = ReverseComplement →
  classify_sequence (reverse_complement complement s) threshold = Forward.
Proof. apply classify_reverse_complement. Qed.

Lemma reverse_complement_then_forward_witness :
  pairs_T_with_A dna_complement
  ∧ classify_sequence "TTTTTTUCCCCC" 5 = ReverseComplement
  ∧ classify_sequence (reverse_complement dna_complement "TTTTTTUCCCCC")
      5
    = Forward.
Proof.
  assert (H : classify_sequence "TTTTTTUCCCCC" 5 = ReverseComplement)
    by (vm_compute; reflexivity).
  split; [exact dna_complement_pairs_T_with_A | split; [exact H|]].
  exact (reverse_complement_then_forward dna_complement "TTTTTTUCCCCC" 5
           dna_complement_pairs_T_with_A H).
Defined.

(** * Further properties of the record loops *)

Lemma emit_alignment_not_revcomp {F : Type} complement threshold
    (read : AlignedSegment F) :
  pairs_T_with_A complement →
  classify_sequence (query_sequence (emit_alignment complement threshold read))
    threshold ≠ ReverseComplement.
Proof.
  intros Hc. unfold emit_alignment.
  destruct (classify_sequence (query_sequence read) threshold) eqn:E;
    try (rewrite E; done).
  simpl. by rewrite (classify_reverse_complement _ _ _ Hc E).
Qed.

Lemma emit_alignment_idempotent {F : Type} complement threshold
    (read : AlignedSegment F) :
  pairs_T_with_A complement →
  emit_alignment complement threshold
    (emit_alignment complement threshold read)
  = emit_alignment complement threshold read.
Proof.
  intros Hc.
  pose proof (emit_alignment_not_revcomp complement threshold read Hc) as H.
  unfold emit_alignment at 1.
  by destruct (classify_sequence
                 (query_sequence (emit_alignment complement threshold read))
                 threshold).
Qed.

(** X9. Running the alignment loop on what it wrote changes nothing: the
    second pass reverse-complements no record and writes its input back,
    whenever the complement table sends 'T' to 'A' and nothing but 'A' to
    'T', as the table of Biopython does. *)
Theorem alignment_loop_idempotent {F : Type} (complement : ascii → ascii)
    (f : list (AlignedSegment F)) (threshold : Z) :
  pairs_T_with_A complement →
  let out := snd (read_and_write_alignment complement f threshold) in
  snd (read_and_write_alignment complement out threshold) = out
  ∧ fst (read_and_write_alignment complement out threshold)
      !!! "revcomp_cnt" = 0.
Proof.
  intros Hc out. unfold out. rewrite !alignment_out. split.
  - rewrite map_map. apply map_ext. intros read.
    by apply emit_alignment_idempotent.
  - unfold read_and_write_alignment. rewrite alignment_loop_eq. cbn [fst].
    destruct (tally_from_init threshold
                (map query_sequence
                   (map (emit_alignment complement threshold) f)))
      as (_ & -> & _).
    replace (of_class threshold ReverseComplement
               (map query_sequence
                  (map (emit_alignment complement threshold) f)))
      with (@nil string); [done|].
    symmetry. induction f as [|read f IH]; [done|].
    cbn [map]. rewrite of_class_cons, IH. case_decide; [|done].
    by destruct (emit_alignment_not_revcomp complement threshold read Hc).
Qed.

Lemma alignment_loop_idempotent_witness :
  pairs_T_with_A dna_complement
  ∧ snd (read_and_write_alignment dna_complement
           (snd (read_and_write_alignment dna_complement
                   [MkSegment "TTTTTTUCCCCC" (Some [30; 31]) tt;
                    MkSegment "ACGT" None tt] 5)) 5)
    = snd (read_and_write_alignment dna_complement
             [MkSegment "TTTTTTUCCCCC" (Some [30; 31]) tt;
              MkSegment "ACGT" None tt] 5).
Proof.
  split; [exact dna_complement_pairs_T_with_A|].
  exact (proj1 (alignment_loop_idempotent dna_complement
                  [MkSegment "TTTTTTUCCCCC" (Some [30; 31]) tt;
                   MkSegment "ACGT" None tt] 5
                  dna_complement_pairs_T_with_A)).
Defined.



(** X11. A record the alignment loop classifies ReverseComplement is written
    with the reverse complement of its sequence, without quality scores
    (the assignment of line 53 discards them), and with its other
    attributes as read. *)
Theorem alignment_revcomp_written {F : Type} (complement : ascii → ascii)
    (f : list (AlignedSegment F)) (threshold : Z) (i : nat)
    (read : AlignedSegment F) :
  f !! i = Some read →
  classify_sequence (query_sequence read) threshold = ReverseComplement →
  snd (read_and_write_alignment complement f threshold) !! i
  = Some (MkSegment (reverse_complement complement (query_sequence read))
            None (segment_fields read)).
Proof.
  intros Hi Hclass.
  rewrite alignment_out, list_lookup_fmap, Hi. simpl. f_equal.
  unfold emit_alignment. by rewrite Hclass.
Qed.

Lemma alignment_revcomp_written_witness :
  [MkSegment "TTTTTTCCCCCC" (Some [30; 31; 32]) 3%nat] !! 0%nat
  = Some (MkSegment "TTTTTTCCCCCC" (Some [30; 31; 32]) 3%nat)
  ∧ classify_sequence "TTTTTTCCCCCC" 5 = ReverseComplement
  ∧ snd (read_and_write_alignment dna_complement
           [MkSegment "TTTTTTCCCCCC" (Some [30; 31; 32]) 3%nat] 5) !! 0%nat
    = Some (MkSegment (reverse_complement dna_complement "TTTTTTCCCCCC")
              None 3%nat).
Proof.
  assert (H1 : [MkSegment "TTTTTTCCCCCC" (Some [30; 31; 32]) 3%nat] !! 0%nat
               = Some (MkSegment "TTTTTTCCCCCC" (Some [30; 31; 32]) 3%nat))
    by reflexivity.
  assert (H2 : classify_sequence "TTTTTTCCCCCC" 5 = ReverseComplement)
    by (vm_compute; reflexivity).
  split; [exact H1 | split; [exact H2|]].
  exact (alignment_revcomp_written dna_complement _ 5 0
           (MkSegment "TTTTTTCCCCCC" (Some [30; 31; 32]) 3%nat) H1 H2).
Defined.

Lemma fastx_unmodified_unless_revcomp_witness :
  [MkFastx "r1" "ACGT" (Some "IIII")] !! 0%nat
  = Some (MkFastx "r1" "ACGT" (Some "IIII"))
  ∧ classify_sequence "ACGT" 5 ≠ ReverseComplement
  ∧ snd (read_and_write_fastx dna_complement
           [MkFastx "r1" "ACGT" (Some "IIII")] 5) !! 0%nat
    = Some (fastq_text (MkFastx "r1" "ACGT" (Some "IIII"))).
Proof.
  assert (H1 : [MkFastx "r1" "ACGT" (Some "IIII")] !! 0%nat
               = Some (MkFastx "r1" "ACGT" (Some "IIII"))) by reflexivity.
  assert (H2 : classify_sequence "ACGT" 5 ≠ ReverseComplement)
    by (vm_compute; intros E; discriminate E).
  split; [exact H1 | split; [exact H2|]].
  exact (fastx_unmodified_unless_revcomp dna_complement _ 5 0
           (MkFastx "r1" "ACGT" (Some "IIII")) H1 H2).
Defined.

Lemma fastx_revcomp_written_witness :
  [MkFastx "r1" "TTTTTTCCCCCC" None] !! 0%nat
  = Some (MkFastx "r1" "TTTTTTCCCCCC" None)
  ∧ classify_sequence "TTTTTTCCCCCC" 5 = ReverseComplement
  ∧ snd (read_and_write_fastx dna_complement
           [MkFastx "r1" "TTTTTTCCCCCC" None] 5) !! 0%nat
    = Some (fastq_text
              (MkFastx "r1"
                 (reverse_complement dna_complement "TTTTTTCCCCCC") None)).
Proof.
  assert (H1 : [MkFastx "r1" "TTTTTTCCCCCC" None] !! 0%nat
               = Some (MkFastx "r1" "TTTTTTCCCCCC" None)) by reflexivity.
  assert (H2 : classify_sequence "TTTTTTCCCCCC" 5 = ReverseComplement)
    by (vm_compute; reflexivity).
  split; [exact H1 | split; [exact H2|]].
  exact (fastx_revcomp_written dna_complement _ 5 0
           (MkFastx "r1" "TTTTTTCCCCCC" None) H1 H2).
Defined.

(** ** Sums over the classes *)

Lemma total_partition (threshold : Z) (g : string → Z) seqs :
  total g (of_class threshold Forward seqs)
  + total g (of_class threshold ReverseComplement seqs)
  + total g (of_class threshold Ambiguous seqs)
  = total g seqs.
Proof.
  induction seqs as [|s seqs IH]; [done|].
  rewrite !of_class_cons.
  destruct (classify_sequence s threshold);
    repeat case_decide; try congruence; rewrite ?total_cons; lia.
Qed.

Lemma of_class_classified (threshold : Z) c seqs s :
  s ∈ of_class threshold c seqs → classify_sequence s threshold = c.
Proof. unfold of_class. rewrite list_elem_of_filter. tauto. Qed.

Lemma total_le (g1 g2 : string → Z) seqs :
  (∀ s, s ∈ seqs → g1 s ≤ g2 s) → total g1 seqs ≤ total g2 seqs.
Proof.
  induction seqs as [|s seqs IH]; intros H; [done|].
  rewrite !total_cons.
  pose proof (H s ltac:(left)).
  assert (total g1 seqs ≤ total g2 seqs)
    by (apply IH; intros s' Hs'; apply H; by right).
  lia.
Qed.

Lemma total_scaled (k : Z) (g : string → Z) seqs :
  total (λ s, k * g s) seqs = k * total g seqs.
Proof.
  induction seqs as [|s seqs IH]; [unfold total; simpl; lia|].
  rewrite !total_cons, IH. lia.
Qed.

Lemma total_const (k : Z) seqs : total (λ _, k) seqs = k * count seqs.
Proof.
  induction seqs as [|s seqs IH]; [unfold total, count; simpl; lia|].
  rewrite total_cons, count_cons, IH. lia.
Qed.

Lemma total_plus_one (g : string → Z) seqs :
  total (λ s, g s + 1) seqs = total g seqs + count seqs.
Proof.
  induction seqs as [|s seqs IH]; [unfold total, count; simpl; lia|].
  rewrite !total_cons, count_cons, IH. lia.
Qed.

Lemma total_nonneg (g : string → Z) seqs :
  (∀ s, s ∈ seqs → 0 ≤ g s) → 0 ≤ total g seqs.
Proof.
  intros H. replace 0 with (total (λ _, 0) seqs); [by apply total_le|].
  rewrite total_const. lia.
Qed.

Lemma total_at_least (k : Z) (g : string → Z) seqs :
  (∀ s, s ∈ seqs → k ≤ g s) → k * count seqs ≤ total g seqs.
Proof. intros H. rewrite <- total_const. by apply total_le. Qed.

(** A Forward sequence has an 'A' run of at least the threshold, a
    ReverseComplement one a 'T' run of at least the threshold. *)
Lemma forward_run_at_least s threshold :
  classify_sequence s threshold = Forward →
  threshold ≤ bestA (find_poly s 0).
Proof.
  pose proof (find_poly_0_bounds s) as [HT HA].
  unfold classify_sequence, classify, bestT, bestA in *.
  repeat case_match; try done; lia.
Qed.

Lemma revcomp_run_at_least s threshold :
  classify_sequence s threshold = ReverseComplement →
  threshold ≤ bestT (find_poly s 0).
Proof.
  pose proof (find_poly_0_bounds s) as [HT HA].
  unfold classify_sequence, classify, bestT, bestA in *.
  repeat case_match; try done; lia.
Qed.

(** Relations between the entries of the statistics of a loop over the
    sequences [seqs]. *)
Lemma tally_relations (threshold : Z) (seqs : list string) :
  let stats := fold_left (λ st s, tally threshold s st) seqs stats_init in
  stats !!! "fwd_cnt" + stats !!! "revcomp_cnt" + stats !!! "ambigous_cnt"
  = count seqs
  ∧ stats !!! "fwd_len" + stats !!! "revcomp_len" + stats !!! "ambigous_len"
    = total len seqs
  ∧ (0 ≤ stats !!! "fwd_cnt" ∧ 0 ≤ stats !!! "revcomp_cnt"
     ∧ 0 ≤ stats !!! "ambigous_cnt" ∧ 0 ≤ stats !!! "fwd_len"
     ∧ 0 ≤ stats !!! "revcomp_len" ∧ 0 ≤ stats !!! "ambigous_len")
  ∧ (threshold * stats !!! "fwd_cnt" ≤ stats !!! "polyA_len"
     ∧ 0 ≤ stats !!! "polyA_len"
     ∧ 2 * stats !!! "polyA_len"
       ≤ stats !!! "fwd_len" + stats !!! "fwd_cnt")
  ∧ (threshold * stats !!! "revcomp_cnt" ≤ stats !!! "polyT_len"
     ∧ 0 ≤ stats !!! "polyT_len"
     ∧ 2 * stats !!! "polyT_len" ≤ stats !!! "revcomp_len").
Proof.
  destruct (tally_from_init threshold seqs)
    as (H1 & H2 & H3 & H4 & H5 & H6 & H7 & H8).
  cbv zeta in *. rewrite H1, H2, H3, H4, H5, H6, H7, H8.
  set (fwd := of_class threshold Forward seqs).
  set (rc := of_class threshold ReverseComplement seqs).
  set (amb := of_class threshold Ambiguous seqs).
  assert (Hlen : ∀ l, 0 ≤ total len l).
  { intros l. apply total_nonneg. intros s _. unfold len. lia. }
  assert (Hhalf : ∀ s, 0 ≤ len s ∧ 2 * (len s / 2) ≤ len s
                       ∧ len s ≤ 2 * (len s / 2) + 1).
  { intros s. assert (0 ≤ len s) by (unfold len; lia).
    pose proof (Z.mul_div_le (len s) 2).
    pose proof (Z.mod_pos_bound (len s) 2).
    pose proof (Z.div_mod (len s) 2). lia. }
  split; [apply class_partition|].
  split; [apply total_partition|].
  split; [repeat split; try apply count_nonneg; apply Hlen|].
  split; [split; [|split]|split; [|split]].
  - apply total_at_least. intros s Hs.
    by apply forward_run_at_least, (of_class_classified _ _ seqs).
  - apply total_nonneg. intros s _. apply (find_poly_0_bounds s).
  - rewrite <- total_scaled, <- total_plus_one. apply total_le.
    intros s _. cbv beta. pose proof (find_poly_0_bounds s).
    pose proof (Hhalf s). lia.
  - apply total_at_least. intros s Hs.
    by apply revcomp_run_at_least, (of_class_classified _ _ seqs).
  - apply total_nonneg. intros s _. apply (find_poly_0_bounds s).
  - rewrite <- total_scaled. apply total_le.
    intros s _. cbv beta. pose proof (find_poly_0_bounds s).
    pose proof (Hhalf s). lia.
Qed.

Lemma tally_dom (threshold : Z) (seqs : list string) (stats : gmap string Z) :
  dom stats = dom stats_init →
  dom (fold_left (λ st s, tally threshold s st) seqs stats) = dom stats_init.
Proof.
  revert stats. induction seqs as [|s seqs IH]; intros stats H; [done|].
  cbn [fold_left]. apply IH. unfold tally, stats_add.
  destruct (classify_sequence s threshold);
    rewrite !dom_insert_L, H; unfold stats_init;
    rewrite !dom_insert_L, dom_empty_L; set_solver.
Qed.

(** X14. The statistics returned by the alignment loop, for every stream and
    every threshold: the dictionary has the eight keys it started with; the
    three counts add up to the number of records and the three length sums
    to the total length read; no entry is negative; the 'A' runs summed in
    polyA_len are at least the threshold per Forward record and at most
    half of each read rounded up, and the 'T' runs summed in polyT_len are
    at least the threshold per ReverseComplement record and at most half
    of each read. *)
Theorem alignment_stats_relations {F : Type} (complement : ascii → ascii)
    (f : list (AlignedSegment F)) (threshold : Z) :
  let stats := fst (read_and_write_alignment complement f threshold) in
  dom stats = ({["fwd_cnt"; "fwd_len"; "revcomp_cnt"; "revcomp_len";
                 "ambigous_cnt"; "ambigous_len"; "polyA_len"; "polyT_len"]}
               : gset string)
  ∧ stats !!! "fwd_cnt" + stats !!! "revcomp_cnt" + stats !!! "ambigous_cnt"
    = Z.of_nat (length f)
  ∧ stats !!! "fwd_len" + stats !!! "revcomp_len" + stats !!! "ambigous_len"
    = total len (map query_sequence f)
  ∧ (0 ≤ stats !!! "fwd_cnt" ∧ 0 ≤ stats !!! "revcomp_cnt"
     ∧ 0 ≤ stats !!! "ambigous_cnt" ∧ 0 ≤ stats !!! "fwd_len"
     ∧ 0 ≤ stats !!! "revcomp_len" ∧ 0 ≤ stats !!! "ambigous_len")
  ∧ (threshold * stats !!! "fwd_cnt" ≤ stats !!! "polyA_len"
     ∧ 0 ≤ stats !!! "polyA_len"
     ∧ 2 * stats !!! "polyA_len"
       ≤ stats !!! "fwd_len" + stats !!! "fwd_cnt")
  ∧ (threshold * stats !!! "revcomp_cnt" ≤ stats !!! "polyT_len"
     ∧ 0 ≤ stats !!! "polyT_len"
     ∧ 2 * stats !!! "polyT_len" ≤ stats !!! "revcomp_len").
Proof.
  intros stats. unfold stats, read_and_write_alignment.
  rewrite alignment_loop_eq. cbn [fst].
  split.
  { rewrite tally_dom by done. unfold stats_init.
    rewrite !dom_insert_L, dom_empty_L. set_solver. }
  pose proof (tally_relations threshold (map query_sequence f)) as H.
  cbv zeta in H. unfold count in H. rewrite length_map in H. exact H.
Qed.

(** X15. The FASTA/FASTQ loop keeps the statistics as the alignment loop does:
    each count is the number of records of its class, each length entry
    the sum of their sequence lengths, polyA_len the sum of the 'A' runs of
    the Forward records and polyT_len the sum of the 'T' runs of the
    ReverseComplement records; and it writes one text per record. *)
Theorem fastx_stats (complement : ascii → ascii) (f : list FastxRecord)
    (threshold : Z) :
  let stats := fst (read_and_write_fastx complement f threshold) in
  let seqs := map sequence f in
  let fwd := of_class threshold Forward seqs in
  let rc := of_class threshold ReverseComplement seqs in
  let amb := of_class threshold Ambiguous seqs in
  length (snd (read_and_write_fastx complement f threshold)) = length f
  ∧ count fwd + count rc + count amb = Z.of_nat (length f)
  ∧ stats !!! "fwd_cnt" = count fwd
  ∧ stats !!! "revcomp_cnt" = count rc
  ∧ stats !!! "ambigous_cnt" = count amb
  ∧ stats !!! "fwd_len" = total len fwd
  ∧ stats !!! "revcomp_len" = total len rc
  ∧ stats !!! "ambigous_len" = total len amb
  ∧ stats !!! "polyA_len" = total (λ s, bestA (find_poly s 0)) fwd
  ∧ stats !!! "polyT_len" = total (λ s, bestT (find_poly s 0)) rc.
Proof.
  intros stats seqs fwd rc amb.
  split; [by rewrite fastx_out, length_map|].
  split.
  { unfold fwd, rc, amb. rewrite class_partition.
    unfold count, seqs. by rewrite length_map. }
  unfold stats. rewrite fastx_stats_eq.
  apply (tally_from_init threshold seqs).
Qed.

(** X16. The statistics depend on the sequences and the threshold only: the two
    loops, run on streams with the same sequences, return the same
    dictionary, whatever the complement tables and the other fields. *)
Theorem loops_same_stats {F : Type} (c1 c2 : ascii → ascii)
    (f : list (AlignedSegment F)) (g : list FastxRecord) (threshold : Z) :
  map query_sequence f = map sequence g →
  fst (read_and_write_alignment c1 f threshold)
  = fst (read_and_write_fastx c2 g threshold).
Proof.
  intros H. rewrite fastx_stats_eq. unfold read_and_write_alignment.
  rewrite alignment_loop_eq. cbn [fst]. by rewrite H.
Qed.

Lemma loops_same_stats_witness :
  map query_sequence [MkSegment "TTTTTTCCCCCC" None tt; MkSegment "ACGT" None tt]
  = map sequence [MkFastx "a" "TTTTTTCCCCCC" None;
                  MkFastx "b" "ACGT" (Some "IIII")]
  ∧ fst (read_and_write_alignment dna_complement
           [MkSegment "TTTTTTCCCCCC" None tt; MkSegment "ACGT" None tt] 5)
    = fst (read_and_write_fastx id
             [MkFastx "a" "TTTTTTCCCCCC" None;
              MkFastx "b" "ACGT" (Some "IIII")] 5).
Proof.
  assert (H : map query_sequence
                [MkSegment "TTTTTTCCCCCC" None tt; MkSegment "ACGT" None tt]
              = map sequence [MkFastx "a" "TTTTTTCCCCCC" None;
                              MkFastx "b" "ACGT" (Some "IIII")])
    by reflexivity.
  split; [exact H|].
  exact (loops_same_stats dna_complement id _ _ 5 H).
Defined.

(** * Properties of [detect_format] *)

Local Open Scope string_scope.

Lemma append_cons c s t : String c s ++ t = String c (s ++ t).
Proof. reflexivity. Qed.

Lemma append_empty t : "" ++ t = t.
Proof. reflexivity. Qed.

Lemma split_not_nil sep s : split sep s ≠ [].
Proof.
  destruct s as [|c s]; simpl; [done|].
  case_decide; [done|]. by destruct (split sep s).
Qed.

(** A string without the separator is its own single field. *)
Lemma split_no_sep sep s :
  sep ∉ list_ascii_of_string s → split sep s = [s].
Proof.
  induction s as [|c s IH]; intros H; [done|].
  simpl in *. apply not_elem_of_cons in H as [Hc Hs].
  rewrite decide_False by done. by rewrite IH.
Qed.

(** The fields around an occurrence of the separator. *)
Lemma split_app_sep sep stem ext :
  split sep (stem ++ String sep ext) = (split sep stem ++ split sep ext)%list.
Proof.
  induction stem as [|c stem IH].
  - rewrite append_empty. simpl. by rewrite decide_True.
  - rewrite append_cons. simpl. case_decide; [by rewrite IH|].
    rewrite IH. pose proof (split_not_nil sep stem).
    by destruct (split sep stem).
Qed.

(** No field contains the separator. *)
Lemma split_fields_no_sep sep s field :
  field ∈ split sep s → sep ∉ list_ascii_of_string field.
Proof.
  revert field. induction s as [|c s IH]; intros field; simpl.
  - intros ->%list_elem_of_singleton. simpl. apply not_elem_of_nil.
  - case_decide.
    + intros [-> | H']%elem_of_cons; [apply not_elem_of_nil | by apply IH].
    + destruct (split sep s) as [|f fs]; simpl.
      * intros ->%list_elem_of_singleton. simpl.
        apply not_elem_of_cons. split; [done | apply not_elem_of_nil].
      * intros [-> | H']%elem_of_cons.
        -- simpl. apply not_elem_of_cons. split; [done|].
           apply IH. by left.
        -- apply IH. by right.
Qed.

Lemma last_field_app l1 l2 :
  l2 ≠ [] → last_field (l1 ++ l2)%list = last_field l2.
Proof.
  intros H. unfold last_field. induction l1 as [|x l1 IH]; [done|].
  simpl. destruct (l1 ++ l2)%list eqn:E; [|done].
  by destruct l1, l2.
Qed.

Lemma last_field_in l : l ≠ [] → last_field l ∈ l.
Proof.
  unfold last_field. induction l as [|x l IH]; [done|]. intros _.
  destruct l as [|y l]; [by left|]. right. by apply IH.
Qed.

(** The format of a file name is read off the text after its last dot. *)
Lemma last_field_extension stem ext :
  "."%char ∉ list_ascii_of_string ext →
  last_field (split "."%char (stem ++ "." ++ ext)) = ext
  ∧ last_field (split "."%char ext) = ext.
Proof.
  intros H.
  change ("." ++ ext) with (String "."%char ext).
  rewrite split_app_sep, last_field_app by apply split_not_nil.
  by rewrite split_no_sep.
Qed.

(** Membership in a list that is written out. *)
Ltac list_membership :=
  rewrite ?elem_of_cons, ?not_elem_of_cons, ?elem_of_nil in *;
  intuition (subst; try discriminate; try congruence).

(** X17. [detect_format] looks at the text after the last dot only, and a name
    without a dot is its own extension: for an extension [ext] without a
    dot, any [stem.ext] and [ext] itself get status 0 and format 'fx' when
    [ext] is fq, fastq, fa or fasta, status 0 and [ext] when it is sam or
    bam, and status 1 and [ext] otherwise. The comparison is exact, so
    'FQ' or 'gz' get status 1. *)
Theorem detect_format_by_extension (stem ext : string) :
  "."%char ∉ list_ascii_of_string ext →
  detect_format (stem ++ "." ++ ext) = detect_format ext
  ∧ (ext ∈ ["fq"; "fastq"; "fa"; "fasta"] → detect_format ext = (0, "fx"))
  ∧ (ext ∈ ["sam"; "bam"] → detect_format ext = (0, ext))
  ∧ (ext ∉ ["fq"; "fastq"; "fa"; "fasta"; "sam"; "bam"] →
     detect_format ext = (1, ext)).
Proof.
  intros H. destruct (last_field_extension stem ext H) as [H1 H2].
  unfold detect_format, str_in. rewrite H1, H2.
  split; [done|]. split; [|split]; intros Hext.
  - by rewrite bool_decide_eq_true_2.
  - rewrite bool_decide_eq_false_2, bool_decide_eq_true_2; [done..|].
    list_membership.
  - rewrite !bool_decide_eq_false_2; [done | list_membership..].
Qed.

Lemma detect_format_by_extension_witness :
  ("."%char ∉ list_ascii_of_string "fastq")
  ∧ detect_format ("sample.run1" ++ "." ++ "fastq") = detect_format "fastq".
Proof.
  assert (H : "."%char ∉ list_ascii_of_string "fastq").
  { apply (bool_decide_unpack _). vm_compute. exact I. }
  split; [exact H|].
  exact (proj1 (detect_format_by_extension "sample.run1" "fastq" H)).
Defined.

(** X18. For every file name, [detect_format] returns status 0 with one of the
    formats fx, sam, bam, or status 1 with an extension that is none of
    fq, fastq, fa, fasta, sam, bam; the string returned contains no dot. *)
Theorem detect_format_result (file_name : string) :
  let status := fst (detect_format file_name) in
  let fmt := snd (detect_format file_name) in
  ((status = 0 ∧ fmt ∈ ["fx"; "sam"; "bam"])
   ∨ (status = 1 ∧ fmt ∉ ["fq"; "fastq"; "fa"; "fasta"; "sam"; "bam"]))
  ∧ "."%char ∉ list_ascii_of_string fmt.
Proof.
  unfold detect_format, str_in.
  pose proof (split_fields_no_sep "."%char file_name _
                (last_field_in _ (split_not_nil "."%char file_name))) as Hdot.
  set (ext := last_field (split "."%char file_name)) in *.
  destruct (bool_decide_reflect (ext ∈ ["fq"; "fastq"; "fa"; "fasta"])) as [H1 | H1].
  - simpl. split; [left; split; [done | list_membership]|].
    apply (bool_decide_unpack _). vm_compute. exact I.
  - destruct (bool_decide_reflect (ext ∈ ["sam"; "bam"])) as [H2 | H2]; simpl.
    + split; [left; split; [done | list_membership] | done].
    + split; [right; split; [done | list_membership] | done].
Qed.

(** * Properties of [main] *)

(** X19. As the file stands, [main] never reaches a record loop: it raises
    ValueError when the extension of the input name is not recognised (the
    message names the format given with --format when there is one), and
    NameError for the unbound [Path] in every other case. *)
Theorem main_always_raises {F : Type} (complement : ascii → ascii)
    (file : InputFile F) (args : Args) :
  (fst (detect_format (input args)) = 1 →
   main complement file args
   = Raised (ValueError
               ("Can't parse ."
                ++ format_or (format args) (snd (detect_format (input args)))
                ++ " files!")))
  ∧ (fst (detect_format (input args)) ≠ 1 →
     main complement file args = Raised (NameError "Path"))
  ∧ (∀ written printed, main complement file args ≠ Finished written printed).
Proof.
  unfold main, main_in.
  destruct (detect_format (input args)) as [status fmt]. simpl.
  destruct (Z.eqb_spec status 1); repeat split; try done.
Qed.

(** X20. Were [Path] bound, the formats 'fq' and 'fa' that the parser accepts
    for --format would match none of the branches 'fx', 'sam', 'bam': with
    a recognised input extension and --format fq or fa, [main] touches the
    output and returns without reading a record or printing a report. *)
Theorem main_format_fq_fa_not_dispatched {F : Type}
    (complement : ascii → ascii) (file : InputFile F) (args : Args) :
  fst (detect_format (input args)) = 0 →
  format args = Some "fq" ∨ format args = Some "fa" →
  main_in true complement file args = Finished Touched None.
Proof.
  intros Hst Hfmt. unfold main_in.
  destruct (detect_format (input args)) as [status fmt]. simpl in Hst.
  subst status. by destruct Hfmt as [-> | ->].
Qed.

Lemma main_format_fq_fa_not_dispatched_witness :
  fst (detect_format (input (MkArgs "reads.fastq" "out.fq" (Some "fq") 5 None)))
  = 0
  ∧ main_in true dna_complement
      (MkInput [MkFastx "r1" "ACGT" (Some "IIII")] [] ([] : list (AlignedSegment unit)))
      (MkArgs "reads.fastq" "out.fq" (Some "fq") 5 None)
    = Finished Touched None.
Proof.
  assert (H : fst (detect_format
                     (input (MkArgs "reads.fastq" "out.fq" (Some "fq") 5 None)))
              = 0) by (vm_compute; reflexivity).
  split; [exact H|].
  exact (main_format_fq_fa_not_dispatched dna_complement _ _ H
           (or_introl eq_refl)).
Defined.



(** A run of [main] were [Path] bound: the record of reads.sam is
    re-oriented and written without quality scores, and the report is
    printed with its averages 12/(1 + 0.001) and 6/(1 + 0.001), the
    doubles printed as 11.988011988011989 and 5.994005994005994. *)
Example main_run_sam :
  main_in true dna_complement
    (MkInput [] [MkSegment "TTTTTTCCCCCC" (Some [30; 31]) tt] [])
    (MkArgs "reads.sam" "out.sam" None 5 None)
  = Finished (SamFile [MkSegment "GGGGGGAAAAAA" None tt])
      (Some (MkReport "reads.sam"
               0 (SpecFloat.S754_zero false) (SpecFloat.S754_zero false)
               1 (SpecFloat.S754_finite false 6748650790265479 (-49))
                 (SpecFloat.S754_finite false 6748650790265479 (-50))
               0 (SpecFloat.S754_zero false))).
Proof. vm_compute. reflexivity. Qed.

(** * Alignment records without a sequence *)

Lemma alignment_loop_from_with_sequence {F : Type} complement threshold
    (reads : list (AlignedSegment F)) acc rest :
  alignment_loop_from complement threshold acc
    (map WithSequence reads ++ rest)
  = alignment_loop_from complement threshold
      (fold_left (alignment_body complement threshold) reads acc) rest.
Proof.
  revert acc. induction reads as [|read reads IH]; intros acc; [done|].
  simpl. apply IH.
Qed.

(** X22. A SAM/BAM record stored without bases is not handled by the
    alignment loop: at the first such record line 47 raises TypeError, for
    every threshold; the records before it have been written, the
    statistics are lost, and nothing after it is read. On a stream in
    which every record carries its sequence the loop returns what
    [read_and_write_alignment] returns. *)
Theorem alignment_record_without_sequence_raises {F : Type}
    (complement : ascii → ascii) (before : list (AlignedSegment F))
    (fields : F) (after : list (SegmentRead F)) (threshold : Z) :
  read_and_write_alignment_pysam complement
    (map WithSequence before ++ WithoutSequence fields :: after) threshold
  = LoopRaised TypeError
      (snd (read_and_write_alignment complement before threshold))
  ∧ read_and_write_alignment_pysam complement (map WithSequence before)
      threshold
    = LoopReturned
        (fst (read_and_write_alignment complement before threshold))
        (snd (read_and_write_alignment complement before threshold)).
Proof.
  unfold read_and_write_alignment_pysam, read_and_write_alignment. split.
  - by rewrite alignment_loop_from_with_sequence.
  - rewrite <- (app_nil_r (map WithSequence before)).
    by rewrite alignment_loop_from_with_sequence.
Qed.

(** * The bounds of the scanner are attained *)

Lemma longest_run_replicate c k : longest_run c (replicate k c) = k.
Proof.
  pose proof (longest_run_le_length c (replicate k c)) as Hle.
  rewrite length_replicate in Hle.
  assert (k ≤ longest_run c (replicate k c))%nat; [|lia].
  apply longest_run_spec. exists [], []. by rewrite app_nil_r.
Qed.

(** X5. A read made of h 'T' followed by h or h + 1 'A' is split between the
    two blocks, and the scanner at tolerance 0 reports both blocks in
    full: 'T' = h = floor(L/2) and 'A' = L - floor(L/2). *)
Theorem find_poly_T_block_A_block (h k : nat) :
  k = h ∨ k = S h →
  let s :=
    string_of_list_ascii (replicate h "T"%char ++ replicate k "A"%char)%list in
  len s = Z.of_nat (h + k)
  ∧ bestT (find_poly s 0) = Z.of_nat h
  ∧ bestA (find_poly s 0) = Z.of_nat k.
Proof.
  intros Hk s.
  assert (Hlen : len s = Z.of_nat (h + k)).
  { unfold len, s.
    by rewrite length_string_of_list_ascii, length_app, !length_replicate. }
  split; [done|].
  destruct (find_poly_longest_runs s) as [-> ->].
  assert (Hh : Z.to_nat (len s / 2) = h).
  { rewrite Hlen. apply Nat2Z.inj. rewrite Z2Nat.id by (apply Z.div_pos; lia).
    destruct Hk as [-> | ->].
    - replace (Z.of_nat (h + h)) with (Z.of_nat h * 2) by lia.
      by rewrite Z.div_mul.
    - replace (Z.of_nat (h + S h)) with (1 + Z.of_nat h * 2) by lia.
      rewrite Z.div_add by done. change (1 / 2) with 0. lia. }
  rewrite Hh. unfold s. rewrite list_ascii_of_string_of_list_ascii.
  rewrite take_app_length', drop_app_length' by (by rewrite length_replicate).
  by rewrite !longest_run_replicate.
Qed.

Lemma find_poly_T_block_A_block_witness :
  (4 = 3 ∨ 4 = 4)%nat
  ∧ bestA (find_poly
             (string_of_list_ascii
                (replicate 3 "T"%char ++ replicate 4 "A"%char)%list) 0)
    = Z.of_nat 4.
Proof.
  assert (H : (4 = 3 ∨ 4 = 4)%nat) by (right; reflexivity).
  split; [exact H|].
  exact (proj2 (proj2 (find_poly_T_block_A_block 3 4 H))).
Defined.
